(** * Slack2Telegram: the event relay pipeline of [app.py]

    A shallow embedding of class [SlackTelegramBot]: the Socket Mode
    intake handler, the dedup set, the event queue, the dispatcher loop
    and the per-event processing, followed by the properties of the
    specification that concern them.

    Modelling conventions.
    - A Python [dict] with string keys is a [gmap string _]; [d.get(k)]
      is the lookup [d !! k] ([None] when absent), [d[k]] raises
      [KeyError] when absent, [k in d] is [is_Some (d !! k)].
    - The fields the code reads from an event ([type], [text], [user],
      [channel], [client_msg_id]) are strings, so an event is a
      [gmap string string]; a payload is a dict whose entries are such
      objects (the code reads its entry [event] only).
    - Python strings are byte strings in UTF-8; concatenation, emptiness
      and the substring test agree with Python's on code points.
    - [self.processed_events] is a Python [set]; it may hold [None], so
      it is a [gset (option string)].
    - [self.event_queue] is a [deque] used with [append] and [popleft]:
      a list, appended at the end and popped at the head.
    - Exceptions: a computation returns [Ok v] or [Raise e]; mutations
      made before a raise persist.
    - A Slack response is read with [response[k]], which is [data.get(k)]:
      [None] for a missing key, no [KeyError].
    - The Slack and Telegram clients are external: their calls are
      taken from an environment record, and may return or raise.
    - JSON [null], numbers, arrays and nested objects in the fields the
      code reads, and the contents of the log lines, are not modelled. *)

From Stdlib Require Import String Ascii List Bool Arith Lia.
From stdpp Require Import base option strings gmap list.

Local Open Scope string_scope.
Local Open Scope list_scope.

(** ** Python values and exceptions *)

(** The exception classes the code distinguishes: [except SlackApiError]
    catches the first constructor only; [except Exception] catches the
    first three and not the fourth, which stands for the exceptions that
    derive from [BaseException] without deriving from [Exception]
    ([asyncio.CancelledError], [KeyboardInterrupt], [SystemExit]).
    [SlackApiError] carries [e.response['error']]. *)
Inductive exn : Type :=
| SlackApiError (error : string)
| KeyError (key : string)
| OtherException (name : string)
| BaseException (name : string).

Inductive result (A : Type) : Type :=
| Ok (a : A)
| Raise (e : exn).
Arguments Ok {A} a.
Arguments Raise {A} e.

#[global] Instance result_ret : MRet result := @Ok.
#[global] Instance result_bind : MBind result := fun A B k r =>
  match r with
  | Ok a => k a
  | Raise e => Raise e
  end.

Definition is_SlackApiError (e : exn) : bool :=
  match e with SlackApiError _ => true | _ => false end.

(** What [except Exception] catches. *)
Definition is_Exception (e : exn) : bool :=
  match e with BaseException _ => false | _ => true end.

(** Truth value of [x] where [x] is [None] or a [str]: [if x:]. *)
Definition truthy (x : option string) : bool :=
  match x with
  | None => false
  | Some s => negb (String.eqb s "")
  end.

(** [str(x)] as used by an f-string: a [str] is itself, [None] is the
    text [None]. *)
Definition py_str (x : option string) : string :=
  match x with
  | None => "None"
  | Some s => s
  end.

(** [sub in s] on strings: [sub] occurs in [s] as a contiguous run. *)
Fixpoint py_in (sub s : string) : bool :=
  String.prefix sub s ||
  match s with
  | EmptyString => false
  | String _ s' => py_in sub s'
  end.

(** [d[k]] on a dict. *)
Definition subscript {V : Type} (d : gmap string V) (k : string) : result V :=
  match d !! k with
  | Some v => Ok v
  | None => Raise (KeyError k)
  end.

(** ** Requests, responses, configuration *)

Abbreviation event := (gmap string string).
Abbreviation payload := (gmap string (gmap string string)).

Record SocketModeRequest : Type := {
  envelope_id : string;
  req_payload : payload
}.

Record SocketModeResponse : Type := {
  resp_envelope_id : string
}.

(** The data of a [users_info] or [conversations_info] response, read
    as [info['user']['real_name']] and [info['channel']['name']]; the
    data of an [auth_test] response, read as [response["user_id"]]. *)
Abbreviation info_response := (gmap string (gmap string string)).
Abbreviation auth_response := (gmap string string).

(** [response[k1][k2]] on a [users_info] or [conversations_info]
    response. The response itself yields [None] for a missing key, and
    the subscript on [None] raises [TypeError]; the object under [k1] is a
    dict. *)
Definition response_item (response : info_response) (k1 k2 : string)
    : result string :=
  match response !! k1 with
  | Some d => subscript d k2
  | None => Raise (OtherException "TypeError")
  end.

(** The attributes of [self] that are assigned in [__init__] and never
    written again. *)
Record SlackTelegramBot : Type := {
  user_id : option string;
  telegram_chat_id : option string;
  channel_emojis : gmap string string
}.

(** The external collaborators, as they answer during the processing of
    one event: [slack_client.users_info], [slack_client.conversations_info]
    and [telegram_bot.send_message]. *)
Record env : Type := {
  users_info : option string -> result info_response;
  conversations_info : option string -> result info_response;
  send_message : option string -> string -> result unit
}.

(** ** Observable effects *)

(** The [logging] calls of the two methods, by source line. *)
Inductive log_record : Type :=
| LogProcessing (event_data : payload)            (* line 79, info *)
| LogMentionFound (text : string)                 (* line 100, info *)
| LogSent (message : string)                      (* line 105, info *)
| LogSendFailed (e : exn)                         (* line 107, error *)
| LogSlackFailed (error : string)                 (* line 109, error *)
| LogNoUser                                       (* line 111, info *)
| LogAlreadyProcessed (event_id : option string). (* line 123, info *)

Inductive effect : Type :=
| Log (r : log_record)
| QueueAppend (p : payload)
| QueuePopleft (p : payload)
| SetAdd (event_id : option string)
| CallUsersInfo (user : option string)
| CallConversationsInfo (channel : option string)
| CallSendMessage (chat_id : option string) (text : string)
| Notified (chat_id : option string) (text : string)
| Sleep
| Ack (r : SocketModeResponse)
| HandlerRaised (e : exn).

(** The mutable part of [self], with the effects performed so far. *)
Record state : Type := {
  event_queue : list payload;
  processed_events : gset (option string);
  trace : list effect
}.

Definition emit_on (x : effect) (s : state) : state :=
  {| event_queue := event_queue s;
     processed_events := processed_events s;
     trace := trace s ++ [x] |}.

(** ** State and exception monad *)

Definition M (A : Type) : Type := state -> result A * state.

Definition ret {A : Type} (a : A) : M A := fun s => (Ok a, s).

Definition bind {A B : Type} (m : M A) (k : A -> M B) : M B :=
  fun s =>
    match m s with
    | (Ok a, s') => k a s'
    | (Raise e, s') => (Raise e, s')
    end.

Definition lift {A : Type} (r : result A) : M A := fun s => (r, s).

(** [try: body except <class>: handler], where [catches] tells which
    exceptions the [except] clause names. *)
Definition try_except {A : Type} (body : M A) (catches : exn -> bool)
    (handler : exn -> M A) : M A :=
  fun s =>
    match body s with
    | (Ok a, s') => (Ok a, s')
    | (Raise e, s') => if catches e then handler e s' else (Raise e, s')
    end.

(** stdpp's monad notations [x ← m; k] and [m ;; k] are used for [M]. *)
#[global] Instance M_ret : MRet M := @ret.
#[global] Instance M_bind : MBind M := fun A B k m => bind m k.

Definition emit (x : effect) : M unit := fun s => (Ok tt, emit_on x s).

Definition logging (r : log_record) : M unit := emit (Log r).

(** [self.event_queue.append(p)] *)
Definition queue_append (p : payload) : M unit :=
  fun s =>
    (Ok tt,
     {| event_queue := event_queue s ++ [p];
        processed_events := processed_events s;
        trace := trace s ++ [QueueAppend p] |}).

(** [self.event_queue.popleft()] *)
Definition queue_popleft : M payload :=
  fun s =>
    match event_queue s with
    | [] => (Raise (OtherException "IndexError"), s)
    | p :: q =>
        (Ok p,
         {| event_queue := q;
            processed_events := processed_events s;
            trace := trace s ++ [QueuePopleft p] |})
    end.

(** [self.processed_events.add(x)] *)
Definition set_add (x : option string) : M unit :=
  fun s =>
    (Ok tt,
     {| event_queue := event_queue s;
        processed_events := {[x]} ∪ processed_events s;
        trace := trace s ++ [SetAdd x] |}).

Definition call_users_info (w : env) (user : option string) : M info_response :=
  emit (CallUsersInfo user) ;; lift (users_info w user).

Definition call_conversations_info (w : env) (channel : option string)
    : M info_response :=
  emit (CallConversationsInfo channel) ;; lift (conversations_info w channel).

(** [await self.telegram_bot.send_message(chat_id=..., text=...)]; the
    effect [Notified] marks a call that returned. *)
Definition call_send_message (w : env) (chat_id : option string) (text : string)
    : M unit :=
  emit (CallSendMessage chat_id text) ;;
  lift (send_message w chat_id text) ;;
  emit (Notified chat_id text).

(** ** [SlackTelegramBot.get_user_id] and [load_channel_emojis] *)

(** [auth_test] is the outcome of [self.slack_client.auth_test()]. A
    [SlackApiError] is logged (line 66) and turned into [None]; any other
    exception leaves the method. [response["user_id"]] is a subscript on
    a Slack response, which yields [None] for a missing key. *)
Definition get_user_id (auth_test : result auth_response) : result (option string) :=
  match auth_test with
  | Ok response => Ok (response !! "user_id")
  | Raise e => if is_SlackApiError e then Ok None else Raise e
  end.

(** [file] is the outcome of opening and parsing the JSON file; what
    [except Exception] catches is logged and replaced by the empty dict. *)
Definition load_channel_emojis (file : result (gmap string string))
    : result (gmap string string) :=
  match file with
  | Ok table => Ok table
  | Raise e => if is_Exception e then Ok ∅ else Raise e
  end.

(** [SlackTelegramBot.__init__], as far as the three attributes go:
    [chat_id] is the environment variable [TELEGRAM_CHAT_ID]. The user
    identifier is resolved (line 37) before the file is read (line 49). *)
Definition init (auth_test : result auth_response) (chat_id : option string)
    (file : result (gmap string string)) : result SlackTelegramBot :=
  u ← get_user_id auth_test;
  table ← load_channel_emojis file;
  mret {| user_id := u; telegram_chat_id := chat_id; channel_emojis := table |}.

(** ** [SlackTelegramBot.process_message] *)

(** The mention marker, [f"<@{self.user_id}>"]. *)
Definition mention_marker (self : SlackTelegramBot) : string :=
  "<@" +:+ py_str (user_id self) +:+ ">".

(** Line 98: [f"{channel_name} {self.channel_emojis.get(channel_name, '')}"]. *)
Definition channel_name_with_emoji (self : SlackTelegramBot) (channel_name : string)
    : string :=
  channel_name +:+ " " +:+ default "" (channel_emojis self !! channel_name).

(** Line 102, the text sent to Telegram. *)
Definition notification_text (channel_display user_name text : string) : string :=
  "Канал: " +:+ channel_display +:+ ", Пользователь: " +:+ user_name
  +:+ ", Сообщение: " +:+ text.

Definition process_message (w : env) (self : SlackTelegramBot)
    (event_data : payload) : M unit :=
  logging (LogProcessing event_data) ;;
  let event := default ∅ (event_data !! "event") in
  if bool_decide (event !! "type" = Some "message")
     && bool_decide (is_Some (event !! "text")) then
    text ← lift (subscript event "text");
    let user := event !! "user" in
    let channel_id := event !! "channel" in
    if truthy user then
      if py_in (mention_marker self) text then
        try_except
          (user_info ← call_users_info w user;
           channel_info ← call_conversations_info w channel_id;
           user_name ← lift (response_item user_info "user" "real_name");
           channel_name ← lift (response_item channel_info "channel" "name");
           let display := channel_name_with_emoji self channel_name in
           logging (LogMentionFound text) ;;
           let message := notification_text display user_name text in
           try_except
             (call_send_message w (telegram_chat_id self) message ;;
              logging (LogSent message))
             is_Exception
             (fun e => logging (LogSendFailed e)))
          is_SlackApiError
          (fun e =>
             match e with
             | SlackApiError error => logging (LogSlackFailed error)
             | _ => mret tt
             end)
      else mret tt
    else logging LogNoUser
  else mret tt.

(** ** [SlackTelegramBot.socket_mode_event_handler] *)

(** [SocketModeResponse(envelope_id=req.envelope_id)] *)
Definition ack (req : SocketModeRequest) : SocketModeResponse :=
  {| resp_envelope_id := envelope_id req |}.

(** [x in self.processed_events] *)
Definition in_processed_events (x : option string) : M bool :=
  fun s => (Ok (bool_decide (x ∈ processed_events s)), s).

Definition socket_mode_event_handler (req : SocketModeRequest)
    : M SocketModeResponse :=
  event ← lift (subscript (req_payload req) "event");
  let event_id := event !! "client_msg_id" in
  seen ← in_processed_events event_id;
  (if truthy event_id && negb seen then
     queue_append (req_payload req) ;;
     set_add event_id
   else
     logging (LogAlreadyProcessed event_id)) ;;
  mret (ack req).

(** ** [SlackTelegramBot.process_event_queue] *)

(** [if self.event_queue:] *)
Definition queue_nonempty : M bool :=
  fun s => (Ok (match event_queue s with [] => false | _ :: _ => true end), s).

(** One pass through the body of [while True:]. *)
Definition process_event_queue_body (w : env) (self : SlackTelegramBot) : M unit :=
  nonempty ← queue_nonempty;
  (if nonempty : bool then
     event_data ← queue_popleft;
     process_message w self event_data
   else mret tt) ;;
  emit Sleep.

(** [process_event_queue]: the loop itself, observed for [passes] passes
    starting with pass number [clock]; the collaborators of pass [n] are
    [w n]. An exception raised in a pass ends the loop. *)
Fixpoint process_event_queue (passes : nat) (w : nat -> env)
    (self : SlackTelegramBot) (clock : nat) : M unit :=
  match passes with
  | 0 => mret tt
  | S n =>
      process_event_queue_body (w clock) self ;;
      process_event_queue n w self (S clock)
  end.

(** ** The running process *)

(** The handler is called by the Socket Mode client, the loop runs as an
    asyncio task; a run of the process is a sequence of handler calls
    and loop passes. [sys_fault] holds the exception that left
    [process_event_queue], after which the task runs no more.
    [sys_clock] counts the loop passes; the collaborators may answer
    differently at each pass. Each handler call and each loop pass is
    taken as one step: the handler is the only writer of the set and the
    only producer of the queue, the loop the only consumer. *)
Record system : Type := {
  sys_state : state;
  sys_clock : nat;
  sys_fault : option exn
}.

Inductive input : Type :=
| Deliver (req : SocketModeRequest)
| Tick.

Definition deliver (req : SocketModeRequest) (σ : system) : system :=
  match socket_mode_event_handler req (sys_state σ) with
  | (Ok r, s') =>
      {| sys_state := emit_on (Ack r) s';
         sys_clock := sys_clock σ; sys_fault := sys_fault σ |}
  | (Raise e, s') =>
      {| sys_state := emit_on (HandlerRaised e) s';
         sys_clock := sys_clock σ; sys_fault := sys_fault σ |}
  end.

Definition tick (w : nat -> env) (self : SlackTelegramBot) (σ : system) : system :=
  match sys_fault σ with
  | Some _ => σ
  | None =>
      match process_event_queue_body (w (sys_clock σ)) self (sys_state σ) with
      | (Ok _, s') =>
          {| sys_state := s'; sys_clock := S (sys_clock σ); sys_fault := None |}
      | (Raise e, s') =>
          {| sys_state := s'; sys_clock := S (sys_clock σ); sys_fault := Some e |}
      end
  end.

Definition sys_step (w : nat -> env) (self : SlackTelegramBot)
    (σ : system) (i : input) : system :=
  match i with
  | Deliver req => deliver req σ
  | Tick => tick w self σ
  end.

Definition run (w : nat -> env) (self : SlackTelegramBot)
    (σ : system) (schedule : list input) : system :=
  fold_left (sys_step w self) schedule σ.

(** The state [__init__] leaves: empty deque, empty set. *)
Definition initial_state : state :=
  {| event_queue := []; processed_events := ∅; trace := [] |}.

Definition initial_system : system :=
  {| sys_state := initial_state; sys_clock := 0; sys_fault := None |}.

(** Two states of the process that differ in their traces only. *)
Definition alike (σ1 σ2 : system) : Prop :=
  event_queue (sys_state σ1) = event_queue (sys_state σ2)
  ∧ processed_events (sys_state σ1) = processed_events (sys_state σ2)
  ∧ sys_clock σ1 = sys_clock σ2
  ∧ sys_fault σ1 = sys_fault σ2.

(** [n] passes of the loop in a row. *)
Definition ticks (n : nat) : list input := replicate n Tick.

(** ** Reading a trace *)

(** [a] occurs in [tr] at an earlier position than [b]. *)
Definition occurs_before (a b : effect) (tr : list effect) : Prop :=
  ∃ i j, i < j ∧ tr !! i = Some a ∧ tr !! j = Some b.

(** The texts delivered to the sink, in order. *)
Definition notifications (tr : list effect) : list string :=
  omap (fun x => match x with Notified _ text => Some text | _ => None end) tr.

(** The payloads appended to the queue, in order. *)
Definition accepted (tr : list effect) : list payload :=
  omap (fun x => match x with QueueAppend p => Some p | _ => None end) tr.

(** The payloads taken from the queue for processing, in order. *)
Definition dispatched (tr : list effect) : list payload :=
  omap (fun x => match x with QueuePopleft p => Some p | _ => None end) tr.

(** The payloads [process_message] was entered with, in order. *)
Definition processing (tr : list effect) : list payload :=
  omap (fun x => match x with Log (LogProcessing p) => Some p | _ => None end) tr.

(** The identifiers added to the dedup set, in order. *)
Definition recorded (tr : list effect) : list (option string) :=
  omap (fun x => match x with SetAdd i => Some i | _ => None end) tr.

(** ** The conditions of the specification *)

(** The mention filter in the words of the specification: the event is
    a message, has a text, the text contains the identity marker, and
    the event has an actor. *)
Definition relevant (self : SlackTelegramBot) (ev : event) (text : string) : Prop :=
  ev !! "type" = Some "message"
  ∧ ev !! "text" = Some text
  ∧ py_in (mention_marker self) text = true
  ∧ truthy (ev !! "user") = true.

(** Directory Lookup succeeds for the event: both calls return, and the
    responses hold the two names. *)
Definition enriched (w : env) (ev : event) (user_name channel_name : string) : Prop :=
  ∃ user_info channel_info u c,
    users_info w (ev !! "user") = Ok user_info
    ∧ conversations_info w (ev !! "channel") = Ok channel_info
    ∧ user_info !! "user" = Some u ∧ u !! "real_name" = Some user_name
    ∧ channel_info !! "channel" = Some c ∧ c !! "name" = Some channel_name.



(** Directory Lookup fails for the event with a [SlackApiError]: the
    first call raises it, or the first returns and the second raises it. *)
Definition lookup_rejected (w : env) (ev : event) (error : string) : Prop :=
  users_info w (ev !! "user") = Raise (SlackApiError error)
  ∨ (∃ user_info, users_info w (ev !! "user") = Ok user_info)
    ∧ conversations_info w (ev !! "channel") = Raise (SlackApiError error).

(** ** Computations that only append to the trace *)

Definition append_trace (δ : list effect) (s : state) : state :=
  {| event_queue := event_queue s;
     processed_events := processed_events s;
     trace := trace s ++ δ |}.

(** [emits m r δ]: from every state, [m] ends with [r], leaves the queue
    and the set alone and appends [δ] to the trace. *)
Definition emits {A : Type} (m : M A) (r : result A) (δ : list effect) : Prop :=
  ∀ s, m s = (r, append_trace δ s).

(** The effects of the processing proper: log records other than the
    opening one, collaborator calls and deliveries. *)
Definition quiet (x : effect) : bool :=
  match x with
  | Log (LogProcessing _) => false
  | Log _ | CallUsersInfo _ | CallConversationsInfo _
  | CallSendMessage _ _ | Notified _ _ => true
  | _ => false
  end.

Definition emitter {A : Type} (m : M A) : Prop :=
  ∃ r δ, emits m r δ ∧ Forall (fun x => quiet x = true) δ.

(** The outcome and the effects of processing one event; by
    [process_message_emits] they do not depend on the state. *)
Definition outcome_of (w : env) (self : SlackTelegramBot) (event_data : payload)
    : result unit :=
  fst (process_message w self event_data initial_state).

Definition effects_of (w : env) (self : SlackTelegramBot) (event_data : payload)
    : list effect :=
  trace (snd (process_message w self event_data initial_state)).

(** ** Further readings of a run *)

(** The event the methods read from a payload, and its identifier. *)
Definition event_of (p : payload) : gmap string string :=
  default ∅ (p !! "event").

Definition event_id_of (p : payload) : option string :=
  event_of p !! "client_msg_id".

(** The acknowledgments the handler returned, in order. *)
Definition acks (tr : list effect) : list SocketModeResponse :=
  omap (fun x => match x with Ack r => Some r | _ => None end) tr.

(** The requests of a schedule, in order; [has_event] tells those whose
    payload has the key [event]. *)
Definition deliveries (schedule : list input) : list SocketModeRequest :=
  omap (fun i => match i with Deliver req => Some req | Tick => None end) schedule.

Definition has_event (req : SocketModeRequest) : bool :=
  bool_decide (is_Some (req_payload req !! "event")).

(** The arguments of the collaborator calls made, in order. *)
Definition users_info_calls (tr : list effect) : list (option string) :=
  omap (fun x => match x with CallUsersInfo u => Some u | _ => None end) tr.

Definition conversations_info_calls (tr : list effect) : list (option string) :=
  omap (fun x => match x with CallConversationsInfo c => Some c | _ => None end) tr.

Definition send_message_calls (tr : list effect) : list string :=
  omap (fun x => match x with CallSendMessage _ t => Some t | _ => None end) tr.

(** Lines 94 and 95: the two names read from the responses. *)
Definition names_of (user_info channel_info : info_response)
    : result (string * string) :=
  user_name ← response_item user_info "user" "real_name";
  channel_name ← response_item channel_info "channel" "name";
  mret (user_name, channel_name).

(** What the [except SlackApiError] clause of line 108 makes of an
    exception raised by a lookup. *)
Definition after_lookup_failure (e : exn) : result unit :=
  if is_SlackApiError e then Ok tt else Raise e.

Definition lookup_failure_log (e : exn) : list effect :=
  match e with
  | SlackApiError error => [Log (LogSlackFailed error)]
  | _ => []
  end.

(** The paths through [process_message], each with its outcome and its
    effects. *)
Inductive process_message_path (w : env) (self : SlackTelegramBot) (p : payload)
    : result unit → list effect → Prop :=
| path_not_a_message :
    event_of p !! "type" ≠ Some "message" ∨ event_of p !! "text" = None →
    process_message_path w self p (Ok tt) [Log (LogProcessing p)]
| path_no_user text :
    event_of p !! "type" = Some "message" → event_of p !! "text" = Some text →
    truthy (event_of p !! "user") = false →
    process_message_path w self p (Ok tt) [Log (LogProcessing p); Log LogNoUser]
| path_no_mention text :
    event_of p !! "type" = Some "message" → event_of p !! "text" = Some text →
    truthy (event_of p !! "user") = true →
    py_in (mention_marker self) text = false →
    process_message_path w self p (Ok tt) [Log (LogProcessing p)]
| path_user_lookup_failed text e :
    relevant self (event_of p) text →
    users_info w (event_of p !! "user") = Raise e →
    process_message_path w self p (after_lookup_failure e)
      ([Log (LogProcessing p); CallUsersInfo (event_of p !! "user")]
       ++ lookup_failure_log e)
| path_channel_lookup_failed text user_info e :
    relevant self (event_of p) text →
    users_info w (event_of p !! "user") = Ok user_info →
    conversations_info w (event_of p !! "channel") = Raise e →
    process_message_path w self p (after_lookup_failure e)
      ([Log (LogProcessing p); CallUsersInfo (event_of p !! "user");
        CallConversationsInfo (event_of p !! "channel")]
       ++ lookup_failure_log e)
| path_missing_field text user_info channel_info e :
    relevant self (event_of p) text →
    users_info w (event_of p !! "user") = Ok user_info →
    conversations_info w (event_of p !! "channel") = Ok channel_info →
    names_of user_info channel_info = Raise e →
    process_message_path w self p (Raise e)
      [Log (LogProcessing p); CallUsersInfo (event_of p !! "user");
       CallConversationsInfo (event_of p !! "channel")]
| path_send_failed text user_name channel_name e :
    relevant self (event_of p) text →
    enriched w (event_of p) user_name channel_name →
    send_message w (telegram_chat_id self)
      (notification_text (channel_name_with_emoji self channel_name) user_name text)
    = Raise e →
    is_Exception e = true →
    process_message_path w self p (Ok tt)
      [Log (LogProcessing p); CallUsersInfo (event_of p !! "user");
       CallConversationsInfo (event_of p !! "channel"); Log (LogMentionFound text);
       CallSendMessage (telegram_chat_id self)
         (notification_text (channel_name_with_emoji self channel_name) user_name text);
       Log (LogSendFailed e)]
| path_send_escaped text user_name channel_name e :
    relevant self (event_of p) text →
    enriched w (event_of p) user_name channel_name →
    send_message w (telegram_chat_id self)
      (notification_text (channel_name_with_emoji self channel_name) user_name text)
    = Raise e →
    is_Exception e = false →
    process_message_path w self p (Raise e)
      [Log (LogProcessing p); CallUsersInfo (event_of p !! "user");
       CallConversationsInfo (event_of p !! "channel"); Log (LogMentionFound text);
       CallSendMessage (telegram_chat_id self)
         (notification_text (channel_name_with_emoji self channel_name) user_name text)]
| path_relayed text user_name channel_name :
    relevant self (event_of p) text →
    enriched w (event_of p) user_name channel_name →
    send_message w (telegram_chat_id self)
      (notification_text (channel_name_with_emoji self channel_name) user_name text)
    = Ok tt →
    process_message_path w self p (Ok tt)
      [Log (LogProcessing p); CallUsersInfo (event_of p !! "user");
       CallConversationsInfo (event_of p !! "channel"); Log (LogMentionFound text);
       CallSendMessage (telegram_chat_id self)
         (notification_text (channel_name_with_emoji self channel_name) user_name text);
       Notified (telegram_chat_id self)
         (notification_text (channel_name_with_emoji self channel_name) user_name text);
       Log (LogSent
         (notification_text (channel_name_with_emoji self channel_name) user_name text))].

(** ** The example scenario of the specification *)

Module Scenario.

Definition m1 : payload :=
  {[ "event" := {[ "client_msg_id" := "m1"; "type" := "message";
                   "text" := "<@U1> ping"; "user" := "U1"; "channel" := "C1" ]} ]}.

Definition req (envelope : string) : SocketModeRequest :=
  {| envelope_id := envelope; req_payload := m1 |}.

Definition bot : SlackTelegramBot :=
  {| user_id := Some "U1"; telegram_chat_id := Some "42";
     channel_emojis := {[ "general" := "🔧" ]} |}.

Definition slack : env :=
  {| users_info := fun u =>
       if bool_decide (u = Some "U1")
       then Ok {[ "user" := {[ "real_name" := "Ann" ]} ]}
       else Raise (SlackApiError "user_not_found");
     conversations_info := fun c =>
       if bool_decide (c = Some "C1")
       then Ok {[ "channel" := {[ "name" := "general" ]} ]}
       else Raise (SlackApiError "channel_not_found");
     send_message := fun _ _ => Ok tt |}.

(** A second message, from another user. *)
Definition m2 : payload :=
  {[ "event" := {[ "client_msg_id" := "m2"; "type" := "message";
                   "text" := "see <@U1>"; "user" := "U1"; "channel" := "C1" ]} ]}.

Definition req2 : SocketModeRequest :=
  {| envelope_id := "e9"; req_payload := m2 |}.

(** A mention by a user the directory does not know. *)
Definition stranger : payload :=
  {[ "event" := {[ "client_msg_id" := "m4"; "type" := "message";
                   "text" := "<@U1> hi"; "user" := "U7"; "channel" := "C1" ]} ]}.

Definition stranger_req : SocketModeRequest :=
  {| envelope_id := "e4"; req_payload := stranger |}.

(** A message event that carries no [client_msg_id]. *)
Definition anonymous : payload :=
  {[ "event" := {[ "type" := "message"; "text" := "<@U1> ping";
                   "user" := "U1"; "channel" := "C1" ]} ]}.

Definition anonymous_req : SocketModeRequest :=
  {| envelope_id := "e3"; req_payload := anonymous |}.

(** The bot as [__init__] leaves it when [auth_test] raised
    [SlackApiError]: [get_user_id] returned [None]. *)
Definition unidentified_bot : SlackTelegramBot :=
  {| user_id := None; telegram_chat_id := Some "42";
     channel_emojis := {[ "general" := "🔧" ]} |}.

(** A message whose text holds the characters [<@None>]. *)
Definition none_mention : payload :=
  {[ "event" := {[ "client_msg_id" := "m3"; "type" := "message";
                   "text" := "<@None> ping"; "user" := "U1"; "channel" := "C1" ]} ]}.

(** A message event whose [client_msg_id] is the empty string. *)
Definition blank : payload :=
  {[ "event" := {[ "client_msg_id" := ""; "type" := "message";
                   "text" := "<@U1> ping"; "user" := "U1"; "channel" := "C1" ]} ]}.

Definition blank_req : SocketModeRequest :=
  {| envelope_id := "e5"; req_payload := blank |}.

(** A request whose payload has no [event], as for a slash command. *)
Definition eventless_req : SocketModeRequest :=
  {| envelope_id := "e6"; req_payload := {[ "command" := ∅ ]} |}.

(** Slack answers, Telegram cannot be reached. *)
Definition sink_down : env :=
  {| users_info := users_info slack;
     conversations_info := conversations_info slack;
     send_message := fun _ _ => Raise (OtherException "NetworkError") |}.

(** Slack answers, the awaited delivery is cancelled. *)
Definition sink_cancelled : env :=
  {| users_info := users_info slack;
     conversations_info := conversations_info slack;
     send_message := fun _ _ => Raise (BaseException "CancelledError") |}.

(** Slack cannot be reached: the client raises an exception that is not
    a [SlackApiError]. *)
Definition unreachable : env :=
  {| users_info := fun _ => Raise (OtherException "URLError");
     conversations_info := fun _ => Raise (OtherException "URLError");
     send_message := fun _ _ => Ok tt |}.

(** Slack cannot be reached during the first pass of the loop and
    answers from the second pass on. *)
Definition outage (pass : nat) : env :=
  match pass with
  | 0 => unreachable
  | S _ => slack
  end.

End Scenario.


(** * Properties *)

Example scenario_once :
  notifications (trace (sys_state
    (run (fun _ => Scenario.slack) Scenario.bot initial_system
         [Deliver (Scenario.req "e1"); Tick; Deliver (Scenario.req "e2"); Tick; Tick])))
  = ["Канал: general 🔧, Пользователь: Ann, Сообщение: <@U1> ping"].
Proof. vm_compute. reflexivity. Qed.

(** ** Computations that only append to the trace *)


Lemma append_trace_nil s : append_trace [] s = s.
Proof. destruct s; unfold append_trace; simpl. by rewrite app_nil_r. Qed.

Lemma append_trace_app δ1 δ2 s :
  append_trace δ2 (append_trace δ1 s) = append_trace (δ1 ++ δ2) s.
Proof. unfold append_trace; simpl. by rewrite app_assoc. Qed.

Lemma emit_on_append x s : emit_on x s = append_trace [x] s.
Proof. reflexivity. Qed.

Ltac py_unfold :=
  unfold mbind, M_bind, bind, mret, M_ret, ret, lift, logging, emit,
    try_except in *.

Lemma emits_ret {A} (a : A) : emits (mret a) (Ok a) [].
Proof. intros s. py_unfold. by rewrite append_trace_nil. Qed.

Lemma emits_lift {A} (r : result A) : emits (lift r) r [].
Proof. intros s. py_unfold. by rewrite append_trace_nil. Qed.

Lemma emits_emit x : emits (emit x) (Ok tt) [x].
Proof. intros s. reflexivity. Qed.

Lemma emits_bind_ok {A B} (m : M A) (k : A → M B) a δ1 r δ2 :
  emits m (Ok a) δ1 → emits (k a) r δ2 → emits (m ≫= k) r (δ1 ++ δ2).
Proof.
  intros Hm Hk s. py_unfold. rewrite Hm, Hk. by rewrite append_trace_app.
Qed.

Lemma emits_bind_raise {A B} (m : M A) (k : A → M B) e δ :
  emits m (Raise e) δ → emits (m ≫= k) (Raise e) δ.
Proof. intros Hm s. py_unfold. by rewrite Hm. Qed.

Lemma emits_try_ok {A} (body : M A) catches handler a δ :
  emits body (Ok a) δ → emits (try_except body catches handler) (Ok a) δ.
Proof. intros Hb s. py_unfold. by rewrite Hb. Qed.

Lemma emits_try_caught {A} (body : M A) catches handler e δ1 r δ2 :
  emits body (Raise e) δ1 → catches e = true → emits (handler e) r δ2 →
  emits (try_except body catches handler) r (δ1 ++ δ2).
Proof.
  intros Hb Hc Hh s. py_unfold. rewrite Hb, Hc, Hh. by rewrite append_trace_app.
Qed.

Lemma emits_try_uncaught {A} (body : M A) catches handler e δ :
  emits body (Raise e) δ → catches e = false →
  emits (try_except body catches handler) (Raise e) δ.
Proof. intros Hb Hc s. py_unfold. by rewrite Hb, Hc. Qed.

Lemma emitter_ret {A} (a : A) : emitter (mret a).
Proof. eexists _, _. split; [apply emits_ret | constructor]. Qed.

Lemma emitter_lift {A} (r : result A) : emitter (lift r).
Proof. eexists _, _. split; [apply emits_lift | constructor]. Qed.

Lemma emitter_emit x : quiet x = true → emitter (emit x).
Proof. intros Hx. eexists _, _. split; [apply emits_emit | by repeat constructor]. Qed.

Lemma emitter_bind {A B} (m : M A) (k : A → M B) :
  emitter m → (∀ a, emitter (k a)) → emitter (m ≫= k).
Proof.
  intros (r & δ1 & Hm & H1) Hk. destruct r as [a|e].
  - destruct (Hk a) as (r & δ2 & Ha & H2). eexists _, _.
    split; [by eapply emits_bind_ok | by apply Forall_app].
  - eexists _, _. split; [by eapply emits_bind_raise | done].
Qed.

Lemma emitter_try {A} (body : M A) catches handler :
  emitter body → (∀ e, emitter (handler e)) →
  emitter (try_except body catches handler).
Proof.
  intros (r & δ1 & Hb & H1) Hh. destruct r as [a|e].
  - eexists _, _. split; [by eapply emits_try_ok | done].
  - destruct (catches e) eqn:Hc.
    + destruct (Hh e) as (r & δ2 & He & H2). eexists _, _.
      split; [by eapply emits_try_caught | by apply Forall_app].
    + eexists _, _. split; [by eapply emits_try_uncaught | done].
Qed.

Lemma emits_unique {A} (m : M A) r δ :
  emits m r δ → r = fst (m initial_state) ∧ δ = trace (snd (m initial_state)).
Proof. intros H. by rewrite H. Qed.

(** [process_message] logs its argument, then performs quiet effects
    only; it never touches the queue or the set. *)
Lemma process_message_shape w self event_data :
  ∃ δ, emits (process_message w self event_data)
             (outcome_of w self event_data) (Log (LogProcessing event_data) :: δ)
       ∧ effects_of w self event_data = Log (LogProcessing event_data) :: δ
       ∧ Forall (fun x => quiet x = true) δ.
Proof.
  assert (∃ r δ, emits (process_message w self event_data) r
                   ([Log (LogProcessing event_data)] ++ δ)
                 ∧ Forall (fun x => quiet x = true) δ) as (r & δ & H & Hq).
  { unfold process_message.
    match goal with
    | |- ∃ r δ, emits (_ ≫= ?k) _ _ ∧ _ => assert (emitter (k tt)) as (r & δ & Hk & Hq)
    end.
    - unfold call_users_info, call_conversations_info, call_send_message, logging.
      repeat first
        [ apply emitter_ret | apply emitter_lift
        | apply emitter_emit; reflexivity
        | apply emitter_bind; [|intros ?] | apply emitter_try; [|intros ?]
        | match goal with |- emitter (if ?b then _ else _) => destruct b end
        | match goal with |- emitter (match ?e with _ => _ end) => destruct e end ].
    - exists r, δ. split; [|done].
      eapply emits_bind_ok; [apply emits_emit | exact Hk]. }
  exists δ. destruct (emits_unique _ _ _ H) as [-> Hδ].
  unfold outcome_of, effects_of. rewrite <- Hδ. done.
Qed.

Lemma process_message_emits w self event_data :
  emits (process_message w self event_data)
        (outcome_of w self event_data) (effects_of w self event_data).
Proof.
  destruct (process_message_shape w self event_data) as (δ & H & -> & _). exact H.
Qed.

Lemma omap_quiet {B} (f : effect → option B) δ :
  (∀ x, quiet x = true → f x = None) →
  Forall (fun x => quiet x = true) δ → omap f δ = [].
Proof.
  intros Hf. induction 1 as [|x δ Hx _ IH]; simpl; [done|].
  rewrite (Hf x Hx). exact IH.
Qed.

Lemma effects_of_accepted w self p : accepted (effects_of w self p) = [].
Proof.
  destruct (process_message_shape w self p) as (δ & _ & -> & Hq).
  unfold accepted; simpl. apply omap_quiet; [|done]. by intros [[]| | | | | | | | | |].
Qed.

Lemma effects_of_dispatched w self p : dispatched (effects_of w self p) = [].
Proof.
  destruct (process_message_shape w self p) as (δ & _ & -> & Hq).
  unfold dispatched; simpl. apply omap_quiet; [|done]. by intros [[]| | | | | | | | | |].
Qed.

Lemma effects_of_recorded w self p : recorded (effects_of w self p) = [].
Proof.
  destruct (process_message_shape w self p) as (δ & _ & -> & Hq).
  unfold recorded; simpl. apply omap_quiet; [|done]. by intros [[]| | | | | | | | | |].
Qed.

Lemma effects_of_processing w self p : processing (effects_of w self p) = [p].
Proof.
  destruct (process_message_shape w self p) as (δ & _ & -> & Hq).
  unfold processing; simpl. f_equal. apply omap_quiet; [|done].
  by intros [[]| | | | | | | | | |].
Qed.

(** ** The intake handler, case by case *)

Lemma handler_accepts req ev s :
  req_payload req !! "event" = Some ev →
  truthy (ev !! "client_msg_id") = true →
  ev !! "client_msg_id" ∉ processed_events s →
  socket_mode_event_handler req s =
    (Ok (ack req),
     {| event_queue := event_queue s ++ [req_payload req];
        processed_events := {[ ev !! "client_msg_id" ]} ∪ processed_events s;
        trace := trace s ++ [QueueAppend (req_payload req);
                             SetAdd (ev !! "client_msg_id")] |}).
Proof.
  intros Hev Hid Hnew.
  unfold socket_mode_event_handler, subscript, in_processed_events,
    queue_append, set_add. py_unfold.
  rewrite Hev, Hid, bool_decide_eq_false_2 by done. simpl.
  by rewrite <- app_assoc.
Qed.

Lemma handler_discards req ev s :
  req_payload req !! "event" = Some ev →
  truthy (ev !! "client_msg_id") = false ∨ ev !! "client_msg_id" ∈ processed_events s →
  socket_mode_event_handler req s =
    (Ok (ack req), emit_on (Log (LogAlreadyProcessed (ev !! "client_msg_id"))) s).
Proof.
  intros Hev Hid.
  unfold socket_mode_event_handler, subscript, in_processed_events. py_unfold.
  rewrite Hev.
  destruct Hid as [->|Hin]; [done|].
  rewrite bool_decide_eq_true_2 by done. by rewrite andb_false_r.
Qed.

Lemma handler_raises req s :
  req_payload req !! "event" = None →
  socket_mode_event_handler req s = (Raise (KeyError "event"), s).
Proof.
  intros Hev. unfold socket_mode_event_handler, subscript. py_unfold.
  by rewrite Hev.
Qed.

(** ** One pass of the dispatcher loop, case by case *)

Lemma body_idle w self s :
  event_queue s = [] →
  process_event_queue_body w self s = (Ok tt, append_trace [Sleep] s).
Proof.
  intros Hq. unfold process_event_queue_body, queue_nonempty. py_unfold.
  by rewrite Hq.
Qed.

Lemma body_busy w self s p q :
  event_queue s = p :: q →
  process_event_queue_body w self s =
    match outcome_of w self p with
    | Ok _ =>
        (Ok tt,
         {| event_queue := q; processed_events := processed_events s;
            trace := trace s ++ QueuePopleft p :: effects_of w self p ++ [Sleep] |})
    | Raise e =>
        (Raise e,
         {| event_queue := q; processed_events := processed_events s;
            trace := trace s ++ QueuePopleft p :: effects_of w self p |})
    end.
Proof.
  intros Hq. unfold process_event_queue_body, queue_nonempty, queue_popleft.
  py_unfold. destruct s as [queue seen tr]; simpl in Hq; subst queue.
  cbn [event_queue processed_events trace].
  pose proof (process_message_emits w self p) as Hpm. unfold emits in Hpm.
  rewrite Hpm.
  destruct (outcome_of w self p) as [[]|e];
    unfold append_trace, emit_on; cbn [event_queue processed_events trace];
    by rewrite <- ?app_assoc.
Qed.

(** ** One step of the process, case by case *)

Lemma deliver_cases req σ :
  let s := sys_state σ in
  (req_payload req !! "event" = None
   ∧ deliver req σ =
       {| sys_state := append_trace [HandlerRaised (KeyError "event")] s;
          sys_clock := sys_clock σ; sys_fault := sys_fault σ |})
  ∨ (∃ ev, req_payload req !! "event" = Some ev
       ∧ (truthy (ev !! "client_msg_id") = false
          ∨ ev !! "client_msg_id" ∈ processed_events s)
       ∧ deliver req σ =
           {| sys_state :=
                append_trace [Log (LogAlreadyProcessed (ev !! "client_msg_id"));
                              Ack (ack req)] s;
              sys_clock := sys_clock σ; sys_fault := sys_fault σ |})
  ∨ (∃ ev, req_payload req !! "event" = Some ev
       ∧ truthy (ev !! "client_msg_id") = true
       ∧ (ev !! "client_msg_id" ∉ processed_events s)
       ∧ deliver req σ =
           {| sys_state :=
                {| event_queue := event_queue s ++ [req_payload req];
                   processed_events := {[ ev !! "client_msg_id" ]} ∪ processed_events s;
                   trace := trace s ++ [QueueAppend (req_payload req);
                                        SetAdd (ev !! "client_msg_id");
                                        Ack (ack req)] |};
              sys_clock := sys_clock σ; sys_fault := sys_fault σ |}).
Proof.
  intros s. unfold deliver. fold s.
  destruct (req_payload req !! "event") as [ev|] eqn:Hev.
  - destruct (truthy (ev !! "client_msg_id")) eqn:Hid.
    + destruct (decide (ev !! "client_msg_id" ∈ processed_events s)) as [Hin|Hnew].
      * right; left. exists ev. split_and!; [done|by right|].
        rewrite (handler_discards req ev s) by auto.
        unfold emit_on, append_trace; simpl. by rewrite <- app_assoc.
      * right; right. exists ev. split_and!; [done..|].
        rewrite (handler_accepts req ev s) by done.
        unfold emit_on; simpl. by rewrite <- app_assoc.
    + right; left. exists ev. split_and!; [done|by left|].
      rewrite (handler_discards req ev s) by auto.
      unfold emit_on, append_trace; simpl. by rewrite <- app_assoc.
  - left. split; [done|]. by rewrite handler_raises.
Qed.

Lemma tick_cases w self σ :
  let s := sys_state σ in
  (is_Some (sys_fault σ) ∧ tick w self σ = σ)
  ∨ (sys_fault σ = None ∧ event_queue s = []
     ∧ tick w self σ =
         {| sys_state := append_trace [Sleep] s;
            sys_clock := S (sys_clock σ); sys_fault := None |})
  ∨ (sys_fault σ = None ∧ ∃ p q, event_queue s = p :: q
     ∧ tick w self σ =
         {| sys_state :=
              {| event_queue := q; processed_events := processed_events s;
                 trace := trace s ++ QueuePopleft p
                            :: effects_of (w (sys_clock σ)) self p
                            ++ match outcome_of (w (sys_clock σ)) self p with
                               | Ok _ => [Sleep]
                               | Raise _ => []
                               end |};
            sys_clock := S (sys_clock σ);
            sys_fault := match outcome_of (w (sys_clock σ)) self p with
                         | Ok _ => None
                         | Raise e => Some e
                         end |}).
Proof.
  intros s. unfold tick. fold s.
  destruct (sys_fault σ) as [e|] eqn:Hf; [left; eauto|right].
  destruct (event_queue s) as [|p q] eqn:Hq.
  - left. split_and!; [done..|]. by rewrite body_idle.
  - right. split; [done|]. exists p, q. split; [done|].
    rewrite (body_busy _ _ _ p q) by done.
    destruct (outcome_of (w (sys_clock σ)) self p); [done|].
    by rewrite app_nil_r.
Qed.

Lemma run_app w self σ a b :
  run w self σ (a ++ b) = run w self (run w self σ a) b.
Proof. apply fold_left_app. Qed.

Lemma run_snoc w self σ a i :
  run w self σ (a ++ [i]) = sys_step w self (run w self σ a) i.
Proof. by rewrite run_app. Qed.

(** ** Invariants of every run *)

Lemma accepted_app a b : accepted (a ++ b) = accepted a ++ accepted b.
Proof. apply omap_app. Qed.

Lemma dispatched_app a b : dispatched (a ++ b) = dispatched a ++ dispatched b.
Proof. apply omap_app. Qed.

Lemma processing_app a b : processing (a ++ b) = processing a ++ processing b.
Proof. apply omap_app. Qed.

Lemma recorded_app a b : recorded (a ++ b) = recorded a ++ recorded b.
Proof. apply omap_app. Qed.

Lemma notifications_app a b :
  notifications (a ++ b) = notifications a ++ notifications b.
Proof. apply omap_app. Qed.

Ltac step_cases w self σ i :=
  destruct i as [req|]; simpl;
  [ destruct (deliver_cases req σ)
      as [(Hev & ->)|[(ev & Hev & Hid & ->)|(ev & Hev & Hid & Hnew & ->)]]
  | destruct (tick_cases w self σ)
      as [(Hf & ->)|[(Hf & Hq & ->)|(Hf & p & q & Hq & ->)]] ];
  cbn [sys_state sys_clock sys_fault append_trace event_queue processed_events trace].

(** What was accepted is what was taken out, followed by what still
    waits; and [process_message] was entered with exactly the payloads
    taken out, in that order. *)
Lemma run_queue_invariant w self schedule :
  let s := sys_state (run w self initial_system schedule) in
  accepted (trace s) = dispatched (trace s) ++ event_queue s
  ∧ processing (trace s) = dispatched (trace s).
Proof.
  induction schedule as [|i schedule IH] using rev_ind; [done|].
  rewrite run_snoc. simpl in IH.
  set (σ := run w self initial_system schedule) in *.
  destruct IH as [IHa IHp].
  step_cases w self σ i; rewrite ?accepted_app, ?dispatched_app, ?processing_app;
    simpl; rewrite ?app_nil_r; try done.
  - split; [|done]. rewrite IHa. by rewrite <- app_assoc.
  - rewrite Hq in IHa.
    rewrite !accepted_app, !dispatched_app, !processing_app.
    rewrite effects_of_accepted, effects_of_dispatched, effects_of_processing.
    rewrite IHa, IHp.
    destruct (outcome_of (w (sys_clock σ)) self p); simpl;
      rewrite ?app_nil_r, <- ?app_assoc; done.
Qed.

(** The dedup set holds exactly the identifiers that were added, and
    none was added twice. *)
Lemma run_recorded_invariant w self schedule :
  let s := sys_state (run w self initial_system schedule) in
  NoDup (recorded (trace s))
  ∧ ∀ x, x ∈ recorded (trace s) ↔ x ∈ processed_events s.
Proof.
  induction schedule as [|i schedule IH] using rev_ind.
  { simpl. split; [constructor|]. intros x. set_solver. }
  rewrite run_snoc. simpl in IH.
  set (σ := run w self initial_system schedule) in *.
  destruct IH as [IHn IHm].
  step_cases w self σ i; rewrite ?recorded_app; simpl; rewrite ?app_nil_r; try done.
  - split.
    + apply NoDup_app. split_and!; [done| |apply NoDup_singleton].
      intros x Hx ->%list_elem_of_singleton. by apply Hnew, IHm.
    + intros x.
      rewrite elem_of_app, list_elem_of_singleton, IHm, elem_of_union,
        elem_of_singleton.
      tauto.
  - rewrite !recorded_app, effects_of_recorded.
    destruct (outcome_of (w (sys_clock σ)) self p); simpl; by rewrite ?app_nil_r.
Qed.

(** ** [process_message], case by case *)

Ltac pm_unfold :=
  unfold outcome_of, effects_of, process_message, call_users_info,
    call_conversations_info, call_send_message, response_item, subscript;
  py_unfold; cbn [mbind result_bind].

(** An event that fails the filter costs one or two log records. *)
Lemma process_message_filtered w self p :
  (∀ text, ¬ relevant self (default ∅ (p !! "event")) text) →
  outcome_of w self p = Ok tt
  ∧ (effects_of w self p = [Log (LogProcessing p)]
     ∨ effects_of w self p = [Log (LogProcessing p); Log LogNoUser]).
Proof.
  intros Hno. pm_unfold. set (ev := default ∅ (p !! "event")) in *.
  destruct (bool_decide (ev !! "type" = Some "message")) eqn:Hty; simpl; [|auto].
  apply bool_decide_eq_true in Hty.
  destruct (bool_decide (is_Some (ev !! "text"))) eqn:Htx; simpl; [|auto].
  apply bool_decide_eq_true in Htx. destruct Htx as [text Htx]. rewrite Htx. simpl.
  destruct (truthy (ev !! "user")) eqn:Hu; simpl; [|auto].
  destruct (py_in (mention_marker self) text) eqn:Hin; simpl; [|auto].
  destruct (Hno text). done.
Qed.

Ltac pm_relevant Hrel :=
  destruct Hrel as (Hty & Htx & Hin & Hu); pm_unfold;
  rewrite Hty, Htx, Hu; cbn [bool_decide decide_rel];
  rewrite !bool_decide_eq_true_2 by eauto; cbn [andb]; rewrite Hin.

(** A relevant event with both lookups and the delivery succeeding: one
    notification. *)
Lemma process_message_relayed w self p text user_name channel_name :
  let ev := default ∅ (p !! "event") in
  let message :=
    notification_text (channel_name_with_emoji self channel_name) user_name text in
  relevant self ev text → enriched w ev user_name channel_name →
  send_message w (telegram_chat_id self) message = Ok tt →
  outcome_of w self p = Ok tt
  ∧ effects_of w self p =
      [Log (LogProcessing p); CallUsersInfo (ev !! "user");
       CallConversationsInfo (ev !! "channel"); Log (LogMentionFound text);
       CallSendMessage (telegram_chat_id self) message;
       Notified (telegram_chat_id self) message; Log (LogSent message)].
Proof.
  intros ev message Hrel (ui & ci & u & c & Hui & Hci & Hu1 & Hu2 & Hc1 & Hc2) Hsend.
  subst ev. pm_relevant Hrel. simpl. rewrite Hui, Hci. simpl.
  rewrite Hu1, Hc1. simpl. rewrite Hu2, Hc2. simpl.
  fold message. rewrite Hsend. done.
Qed.

(** The same with a delivery that raises: the exception is logged, the
    event is dropped. *)
Lemma process_message_send_failed w self p text user_name channel_name e :
  let ev := default ∅ (p !! "event") in
  let message :=
    notification_text (channel_name_with_emoji self channel_name) user_name text in
  relevant self ev text → enriched w ev user_name channel_name →
  send_message w (telegram_chat_id self) message = Raise e →
  is_Exception e = true →
  outcome_of w self p = Ok tt
  ∧ effects_of w self p =
      [Log (LogProcessing p); CallUsersInfo (ev !! "user");
       CallConversationsInfo (ev !! "channel"); Log (LogMentionFound text);
       CallSendMessage (telegram_chat_id self) message; Log (LogSendFailed e)].
Proof.
  intros ev message Hrel (ui & ci & u & c & Hui & Hci & Hu1 & Hu2 & Hc1 & Hc2)
    Hsend Hexc.
  subst ev. pm_relevant Hrel. simpl. rewrite Hui, Hci. simpl.
  rewrite Hu1, Hc1. simpl. rewrite Hu2, Hc2. simpl.
  fold message. rewrite Hsend, Hexc. done.
Qed.

(** The same with a delivery that raises what [except Exception] does
    not catch: the exception leaves [process_message], unlogged. *)
Lemma process_message_send_escaped w self p text user_name channel_name e :
  let ev := default ∅ (p !! "event") in
  let message :=
    notification_text (channel_name_with_emoji self channel_name) user_name text in
  relevant self ev text → enriched w ev user_name channel_name →
  send_message w (telegram_chat_id self) message = Raise e →
  is_Exception e = false →
  outcome_of w self p = Raise e
  ∧ effects_of w self p =
      [Log (LogProcessing p); CallUsersInfo (ev !! "user");
       CallConversationsInfo (ev !! "channel"); Log (LogMentionFound text);
       CallSendMessage (telegram_chat_id self) message].
Proof.
  intros ev message Hrel (ui & ci & u & c & Hui & Hci & Hu1 & Hu2 & Hc1 & Hc2)
    Hsend Hexc.
  subst ev. pm_relevant Hrel. simpl. rewrite Hui, Hci. simpl.
  rewrite Hu1, Hc1. simpl. rewrite Hu2, Hc2. simpl.
  fold message. rewrite Hsend, Hexc. by destruct e.
Qed.

(** A relevant event whose lookup raises [SlackApiError]: the error is
    logged, nothing is sent, each call was made at most once. *)
Lemma process_message_rejected w self p text error :
  let ev := default ∅ (p !! "event") in
  relevant self ev text → lookup_rejected w ev error →
  outcome_of w self p = Ok tt
  ∧ (effects_of w self p =
       [Log (LogProcessing p); CallUsersInfo (ev !! "user");
        Log (LogSlackFailed error)]
     ∨ effects_of w self p =
       [Log (LogProcessing p); CallUsersInfo (ev !! "user");
        CallConversationsInfo (ev !! "channel"); Log (LogSlackFailed error)]).
Proof.
  intros ev Hrel Hrej. subst ev. pm_relevant Hrel. simpl.
  destruct Hrej as [Hui|[[ui Hui] Hci]].
  - rewrite Hui. simpl. auto.
  - rewrite Hui, Hci. simpl. auto.
Qed.


(** * The properties of the specification *)

Lemma faulted_ticks w self n σ :
  is_Some (sys_fault σ) → run w self σ (ticks n) = σ.
Proof.
  intros [e He]. induction n as [|n IH]; [done|].
  change (run w self σ (ticks (S n))) with (run w self (tick w self σ) (ticks n)).
  unfold tick at 1. by rewrite He.
Qed.

(** [n] steps [Tick] of the process are [n] passes of [process_event_queue]. *)
Lemma ticks_are_the_loop w self n σ :
  sys_fault σ = None →
  sys_state (run w self σ (ticks n))
  = snd (process_event_queue n w self (sys_clock σ) (sys_state σ))
  ∧ sys_fault (run w self σ (ticks n))
    = match fst (process_event_queue n w self (sys_clock σ) (sys_state σ)) with
      | Ok _ => None
      | Raise e => Some e
      end.
Proof.
  revert σ. induction n as [|n IH]; intros σ Hf; [done|].
  change (run w self σ (ticks (S n))) with (run w self (tick w self σ) (ticks n)).
  unfold tick. rewrite Hf. cbn [process_event_queue]. py_unfold.
  destruct (process_event_queue_body (w (sys_clock σ)) self (sys_state σ))
    as [[[]|e] s'].
  - by apply IH.
  - by rewrite faulted_ticks.
Qed.

(** ** C2: events without an identifier *)

(** C2, as stated, fails: from the initial state, the handler called with
    a message event that has no [client_msg_id] returns the
    acknowledgment, but the queue stays empty: the event is not enqueued. *)
Lemma C2_absent_id_not_enqueued :
  default ∅ (Scenario.anonymous !! "event") !! "client_msg_id" = None
  ∧ fst (socket_mode_event_handler Scenario.anonymous_req initial_state)
    = Ok (ack Scenario.anonymous_req)
  ∧ event_queue (snd (socket_mode_event_handler Scenario.anonymous_req initial_state))
    = []
  ∧ Scenario.anonymous
    ∉ event_queue (snd (socket_mode_event_handler Scenario.anonymous_req initial_state)).
Proof.
  assert (event_queue
            (snd (socket_mode_event_handler Scenario.anonymous_req initial_state))
          = []) as Hq by (vm_compute; reflexivity).
  split_and!; [vm_compute; reflexivity..|exact Hq|].
  rewrite Hq. apply not_elem_of_nil.
Qed.

(** C2, amended: an event whose [client_msg_id] is absent is discarded by
    the handler: it is not enqueued, the dedup set is unchanged, the
    discard is logged, and the acknowledgment is returned. *)
Theorem C2_absent_id_discarded req ev s :
  req_payload req !! "event" = Some ev →
  ev !! "client_msg_id" = None →
  let s' := snd (socket_mode_event_handler req s) in
  fst (socket_mode_event_handler req s) = Ok (ack req)
  ∧ event_queue s' = event_queue s
  ∧ processed_events s' = processed_events s
  ∧ trace s' = trace s ++ [Log (LogAlreadyProcessed None)].
Proof.
  intros Hev Hid s'. subst s'.
  rewrite (handler_discards req ev s) by (rewrite ?Hid; auto).
  rewrite Hid. done.
Qed.

Lemma C2_absent_id_discarded_witness :
  fst (socket_mode_event_handler Scenario.anonymous_req initial_state)
  = Ok (ack Scenario.anonymous_req)
  ∧ event_queue (snd (socket_mode_event_handler Scenario.anonymous_req initial_state))
    = event_queue initial_state
  ∧ processed_events
      (snd (socket_mode_event_handler Scenario.anonymous_req initial_state))
    = processed_events initial_state
  ∧ trace (snd (socket_mode_event_handler Scenario.anonymous_req initial_state))
    = trace initial_state ++ [Log (LogAlreadyProcessed None)].
Proof.
  apply (C2_absent_id_discarded Scenario.anonymous_req
           (default ∅ (Scenario.anonymous !! "event")) initial_state).
  - vm_compute. reflexivity.
  - vm_compute. reflexivity.
Defined.

(** ** C3: order of enqueue and insertion *)

(** C3, as stated, fails: in the accepting run of the handler on the
    scenario's event, the trace is the append followed by the insertion;
    the insertion does not occur before the append. *)
Lemma C3_insertion_not_before_append :
  let tr := trace (snd (socket_mode_event_handler (Scenario.req "e1") initial_state)) in
  tr = [QueueAppend Scenario.m1; SetAdd (Some "m1")]
  ∧ ¬ occurs_before (SetAdd (Some "m1")) (QueueAppend Scenario.m1) tr.
Proof.
  assert (trace (snd (socket_mode_event_handler (Scenario.req "e1") initial_state))
          = [QueueAppend Scenario.m1; SetAdd (Some "m1")]) as Htr
    by (vm_compute; reflexivity).
  simpl. rewrite Htr. split; [done|].
  intros (i & j & Hij & Hi & Hj).
  destruct i as [|[|i]]; simpl in Hi; try done.
  destruct j as [|[|j]]; simpl in Hj; try done. lia.
Qed.

(** C3, amended: in every accepting run of the handler (identifier
    present and not yet seen), the event is appended to the queue first
    and its identifier is inserted into the dedup set right after, both
    before the handler returns; and over the whole run no identifier is
    inserted twice. *)
Theorem C3_append_then_insert_once w self before req ev after :
  let σ := run w self initial_system before in
  req_payload req !! "event" = Some ev →
  truthy (ev !! "client_msg_id") = true →
  ev !! "client_msg_id" ∉ processed_events (sys_state σ) →
  let s' := snd (socket_mode_event_handler req (sys_state σ)) in
  trace s' = trace (sys_state σ)
             ++ [QueueAppend (req_payload req); SetAdd (ev !! "client_msg_id")]
  ∧ occurs_before (QueueAppend (req_payload req)) (SetAdd (ev !! "client_msg_id"))
      (trace s')
  ∧ NoDup (recorded (trace (sys_state
      (run w self initial_system (before ++ Deliver req :: after))))).
Proof.
  intros σ Hev Hid Hnew s'. subst s'.
  rewrite (handler_accepts req ev (sys_state σ)) by done. simpl.
  split_and!; [done| |apply run_recorded_invariant].
  exists (length (trace (sys_state σ))), (S (length (trace (sys_state σ)))).
  split_and!; [lia| |].
  - by rewrite lookup_app_r, Nat.sub_diag by lia.
  - rewrite lookup_app_r by lia.
    by replace (S _ - _) with 1 by lia.
Qed.

Lemma C3_append_then_insert_once_witness :
  let s' := snd (socket_mode_event_handler (Scenario.req "e1") initial_state) in
  trace s' = [] ++ [QueueAppend Scenario.m1;
                    SetAdd (default ∅ (Scenario.m1 !! "event") !! "client_msg_id")]
  ∧ occurs_before (QueueAppend Scenario.m1)
      (SetAdd (default ∅ (Scenario.m1 !! "event") !! "client_msg_id")) (trace s')
  ∧ NoDup (recorded (trace (sys_state
      (run (fun _ => Scenario.slack) Scenario.bot initial_system
           ([] ++ Deliver (Scenario.req "e1") :: [Tick; Deliver (Scenario.req "e2")]))))).
Proof.
  apply (C3_append_then_insert_once (fun _ => Scenario.slack) Scenario.bot []
           (Scenario.req "e1") (default ∅ (Scenario.m1 !! "event"))
           [Tick; Deliver (Scenario.req "e2")]).
  - vm_compute. reflexivity.
  - vm_compute. reflexivity.
  - apply not_elem_of_empty.
Defined.

(** ** C9: the label of a channel *)

(** C9: for a channel name that is not a key of [channel_emojis], the
    lookup with default yields the empty label and raises nothing, and the
    display string is the channel name followed by one space; in general
    the display string is the name, one space, and the label. *)
Theorem C9_label_fallback self channel_name :
  channel_emojis self !! channel_name = None →
  default "" (channel_emojis self !! channel_name) = ""
  ∧ channel_name_with_emoji self channel_name = channel_name +:+ " "
  ∧ ∀ name, channel_name_with_emoji self name
            = name +:+ " " +:+ default "" (channel_emojis self !! name).
Proof.
  intros Habsent. unfold channel_name_with_emoji. rewrite Habsent. done.
Qed.

Lemma C9_label_fallback_witness :
  default "" (channel_emojis Scenario.bot !! "unknown-channel") = ""
  ∧ channel_name_with_emoji Scenario.bot "unknown-channel" = "unknown-channel" +:+ " "
  ∧ ∀ name, channel_name_with_emoji Scenario.bot name
            = name +:+ " " +:+ default "" (channel_emojis Scenario.bot !! name).
Proof.
  apply (C9_label_fallback Scenario.bot "unknown-channel").
  vm_compute. reflexivity.
Defined.

(** ** C6: first in, first out *)

(** C6: in every run, the payloads accepted into the queue are those
    [process_message] was entered with, in the same order, followed by
    those still waiting. So when [e1] was accepted before [e2] (at
    positions [i < j]) and the processing of [e2] has begun, [e1] was
    processed at the earlier position [i] and [e2] at position [j]. *)
Theorem C6_fifo w self schedule i j e1 e2 :
  let s := sys_state (run w self initial_system schedule) in
  accepted (trace s) !! i = Some e1 →
  accepted (trace s) !! j = Some e2 →
  i < j →
  j < length (processing (trace s)) →
  accepted (trace s) = processing (trace s) ++ event_queue s
  ∧ processing (trace s) !! i = Some e1
  ∧ processing (trace s) !! j = Some e2.
Proof.
  intros s Hi Hj Hij Hlen.
  destruct (run_queue_invariant w self schedule) as [Ha Hp]. fold s in Ha, Hp.
  rewrite <- Hp in Ha. split; [done|].
  rewrite Ha in Hi, Hj.
  rewrite lookup_app_l in Hi by lia. by rewrite lookup_app_l in Hj by lia.
Qed.

Lemma C6_fifo_witness :
  let s := sys_state (run (fun _ => Scenario.slack) Scenario.bot initial_system
                          [Deliver (Scenario.req "e1"); Deliver Scenario.req2;
                           Tick; Tick]) in
  accepted (trace s) = processing (trace s) ++ event_queue s
  ∧ processing (trace s) !! 0 = Some Scenario.m1
  ∧ processing (trace s) !! 1 = Some Scenario.m2.
Proof.
  apply (C6_fifo (fun _ => Scenario.slack) Scenario.bot
           [Deliver (Scenario.req "e1"); Deliver Scenario.req2; Tick; Tick]
           0 1 Scenario.m1 Scenario.m2).
  - vm_compute. reflexivity.
  - vm_compute. reflexivity.
  - lia.
  - vm_compute. lia.
Defined.

(** ** C7: the mention filter *)

Lemma process_message_trace w self p s :
  trace (snd (process_message w self p s)) = trace s ++ effects_of w self p.
Proof. by rewrite process_message_emits. Qed.

(** C7: processing an event delivers a notification only if the event is
    relevant (type [message], a text, the text contains the marker, an
    actor); an event whose text lacks the marker delivers none, and so
    does an event without actor; a relevant event whose lookups and
    delivery succeed delivers exactly one, with the composed text. *)
Theorem C7_mention_filter w self p s text user_name channel_name :
  let ev := default ∅ (p !! "event") in
  let sent := notifications (trace (snd (process_message w self p s))) in
  let message :=
    notification_text (channel_name_with_emoji self channel_name) user_name text in
  (sent ≠ notifications (trace s) → ∃ t, relevant self ev t)
  ∧ (ev !! "text" = Some text → py_in (mention_marker self) text = false →
     sent = notifications (trace s))
  ∧ (truthy (ev !! "user") = false → sent = notifications (trace s))
  ∧ (relevant self ev text → enriched w ev user_name channel_name →
     send_message w (telegram_chat_id self) message = Ok tt →
     sent = notifications (trace s) ++ [message]).
Proof.
  intros ev sent message. subst sent.
  rewrite process_message_trace, notifications_app.
  assert ((∀ t, ¬ relevant self ev t) → notifications (effects_of w self p) = [])
    as Hfiltered.
  { intros Hno. destruct (process_message_filtered w self p Hno) as [_ [->| ->]]; done. }
  split_and!.
  - intros Hsent.
    destruct (bool_decide (ev !! "type" = Some "message")) eqn:Hty.
    2:{ apply bool_decide_eq_false in Hty. destruct Hsent.
        rewrite Hfiltered, app_nil_r; [done|]. by intros t (? & _). }
    apply bool_decide_eq_true in Hty.
    destruct (ev !! "text") as [t|] eqn:Htx.
    2:{ destruct Hsent. rewrite Hfiltered, app_nil_r; [done|].
        intros t (_ & Ht & _). congruence. }
    destruct (py_in (mention_marker self) t) eqn:Hin.
    2:{ destruct Hsent. rewrite Hfiltered, app_nil_r; [done|].
        intros t' (_ & Ht & Hin' & _). congruence. }
    destruct (truthy (ev !! "user")) eqn:Hu.
    2:{ destruct Hsent. rewrite Hfiltered, app_nil_r; [done|].
        intros t' (_ & _ & _ & Hu'). congruence. }
    exists t. done.
  - intros Htx Hin. rewrite Hfiltered, app_nil_r; [done|].
    intros t (_ & Ht & Hin' & _). congruence.
  - intros Hu. rewrite Hfiltered, app_nil_r; [done|].
    intros t (_ & _ & _ & Hu'). congruence.
  - intros Hrel Hen Hsend.
    destruct (process_message_relayed w self p text user_name channel_name
                Hrel Hen Hsend) as [_ ->].
    done.
Qed.

Lemma C7_mention_filter_witness :
  let sent :=
    notifications (trace (snd (process_message Scenario.slack Scenario.bot
                                 Scenario.m1 initial_state))) in
  sent = notifications (trace initial_state)
         ++ [notification_text (channel_name_with_emoji Scenario.bot "general")
               "Ann" "<@U1> ping"].
Proof.
  apply (C7_mention_filter Scenario.slack Scenario.bot Scenario.m1 initial_state
           "<@U1> ping" "Ann" "general").
  - repeat split; vm_compute; reflexivity.
  - eexists _, _, _, _. repeat split; vm_compute; reflexivity.
  - vm_compute. reflexivity.
Defined.

(** ** C4: identity resolution fails at startup *)

(** C4 does not hold of the code. When [auth_test] raises [SlackApiError],
    [get_user_id] returns [None] and [__init__] goes on; the marker is then
    the text [<@None>], and a message whose text holds these characters
    passes the mention filter and is relayed. *)
Theorem C4_none_marker_matches :
  get_user_id (Raise (SlackApiError "invalid_auth")) = Ok None
  ∧ init (Raise (SlackApiError "invalid_auth")) (Some "42") (Ok {[ "general" := "🔧" ]})
    = Ok Scenario.unidentified_bot
  ∧ mention_marker Scenario.unidentified_bot = "<@None>"
  ∧ notifications
      (trace (snd (process_message Scenario.slack Scenario.unidentified_bot
                     Scenario.none_mention initial_state)))
    = ["Канал: general 🔧, Пользователь: Ann, Сообщение: <@None> ping"].
Proof. split_and!; vm_compute; reflexivity. Qed.

(** ** C5: failures while processing an event *)





(** ** C8: a failing lookup *)

(** C8, as stated, fails: Slack cannot be reached during the first pass
    and answers afterwards. The lookup for the first event fails, its
    exception ends the loop, and the second event, next in the queue, is
    never processed. *)
Lemma C8_outage_blocks_next_event :
  fst (process_message (Scenario.outage 0) Scenario.bot Scenario.m1 initial_state)
  = Raise (OtherException "URLError")
  ∧ let σ := run Scenario.outage Scenario.bot initial_system
               [Deliver (Scenario.req "e1"); Deliver Scenario.req2; Tick; Tick] in
    processing (trace (sys_state σ)) = [Scenario.m1]
    ∧ event_queue (sys_state σ) = [Scenario.m2]
    ∧ notifications (trace (sys_state σ)) = []
    ∧ notifications
        (trace (snd (process_message (Scenario.outage 1) Scenario.bot Scenario.m2
                       initial_state)))
      = ["Канал: general 🔧, Пользователь: Ann, Сообщение: see <@U1>"].
Proof. cbv zeta. split_and!; vm_compute; reflexivity. Qed.

Lemma tick_busy w self σ p q :
  sys_fault σ = None → event_queue (sys_state σ) = p :: q →
  tick w self σ =
    {| sys_state :=
         {| event_queue := q; processed_events := processed_events (sys_state σ);
            trace := trace (sys_state σ) ++ QueuePopleft p
                       :: effects_of (w (sys_clock σ)) self p
                       ++ match outcome_of (w (sys_clock σ)) self p with
                          | Ok _ => [Sleep]
                          | Raise _ => []
                          end |};
       sys_clock := S (sys_clock σ);
       sys_fault := match outcome_of (w (sys_clock σ)) self p with
                    | Ok _ => None
                    | Raise e => Some e
                    end |}.
Proof.
  intros Hf Hq.
  destruct (tick_cases w self σ)
    as [([e He] & _)|[(_ & Hq' & _)|(_ & p' & q' & Hq' & ->)]]; [congruence..|].
  rewrite Hq in Hq'. by simplify_eq.
Qed.

(** C8, amended: when either lookup raises [SlackApiError] for a relevant
    event [e1], the event is logged and dropped: each call was made at most
    once, nothing is sent, the loop goes on; and the event [e2] next in the
    queue is processed by the next pass exactly as if it were processed
    alone. *)
Theorem C8_rejected_lookup_isolated w self σ e1 e2 q text error :
  let ev := default ∅ (e1 !! "event") in
  sys_fault σ = None →
  event_queue (sys_state σ) = e1 :: e2 :: q →
  relevant self ev text →
  lookup_rejected (w (sys_clock σ)) ev error →
  let σ1 := tick w self σ in
  let σ2 := tick w self σ1 in
  (∃ calls,
     (calls = [CallUsersInfo (ev !! "user")]
      ∨ calls = [CallUsersInfo (ev !! "user"); CallConversationsInfo (ev !! "channel")])
     ∧ trace (sys_state σ1)
       = trace (sys_state σ) ++ [QueuePopleft e1; Log (LogProcessing e1)]
         ++ calls ++ [Log (LogSlackFailed error); Sleep])
  ∧ notifications (trace (sys_state σ1)) = notifications (trace (sys_state σ))
  ∧ sys_fault σ1 = None
  ∧ event_queue (sys_state σ1) = e2 :: q
  ∧ event_queue (sys_state σ2) = q
  ∧ trace (sys_state σ2)
    = trace (sys_state σ1) ++ QueuePopleft e2
        :: trace (snd (process_message (w (S (sys_clock σ))) self e2 initial_state))
        ++ match fst (process_message (w (S (sys_clock σ))) self e2 initial_state) with
           | Ok _ => [Sleep]
           | Raise _ => []
           end.
Proof.
  intros ev Hf Hq Hrel Hrej σ1 σ2.
  destruct (process_message_rejected (w (sys_clock σ)) self e1 text error Hrel Hrej)
    as [Hok Heff].
  assert (σ1 = {| sys_state :=
                    {| event_queue := e2 :: q;
                       processed_events := processed_events (sys_state σ);
                       trace := trace (sys_state σ) ++ QueuePopleft e1
                                  :: effects_of (w (sys_clock σ)) self e1 ++ [Sleep] |};
                  sys_clock := S (sys_clock σ); sys_fault := None |}) as H1.
  { subst σ1. rewrite (tick_busy w self σ e1 (e2 :: q)) by done. by rewrite Hok. }
  assert (sys_fault σ1 = None) as Hf1 by by rewrite H1.
  assert (event_queue (sys_state σ1) = e2 :: q) as Hq1 by by rewrite H1.
  assert (sys_clock σ1 = S (sys_clock σ)) as Hc1 by by rewrite H1.
  split_and!; [| |done|done| |].
  - destruct Heff as [Heff|Heff]; rewrite H1, Heff; simpl; fold ev.
    + exists [CallUsersInfo (ev !! "user")]. by split; [left|].
    + exists [CallUsersInfo (ev !! "user"); CallConversationsInfo (ev !! "channel")].
      by split; [right|].
  - rewrite H1. simpl. rewrite notifications_app.
    destruct Heff as [-> | ->]; simpl; by rewrite app_nil_r.
  - subst σ2. by rewrite (tick_busy w self σ1 e2 q), ?Hc1.
  - subst σ2. by rewrite (tick_busy w self σ1 e2 q), ?Hc1.
Qed.

Lemma C8_rejected_lookup_isolated_witness :
  let σ := run (fun _ => Scenario.slack) Scenario.bot initial_system
             [Deliver Scenario.stranger_req; Deliver Scenario.req2] in
  let σ1 := tick (fun _ => Scenario.slack) Scenario.bot σ in
  let σ2 := tick (fun _ => Scenario.slack) Scenario.bot σ1 in
  notifications (trace (sys_state σ1)) = notifications (trace (sys_state σ))
  ∧ sys_fault σ1 = None
  ∧ event_queue (sys_state σ1) = [Scenario.m2]
  ∧ event_queue (sys_state σ2) = []
  ∧ notifications (trace (sys_state σ2))
    = ["Канал: general 🔧, Пользователь: Ann, Сообщение: see <@U1>"].
Proof.
  intros σ σ1 σ2.
  destruct (C8_rejected_lookup_isolated (fun _ => Scenario.slack) Scenario.bot σ
              Scenario.stranger Scenario.m2 [] "<@U1> hi" "user_not_found")
    as (_ & H1 & H2 & H3 & H4 & _).
  - vm_compute. reflexivity.
  - vm_compute. reflexivity.
  - repeat split; vm_compute; reflexivity.
  - left. vm_compute. reflexivity.
  - split_and!; [exact H1|exact H2|exact H3|exact H4|].
    vm_compute. reflexivity.
Defined.

(** ** Runs that differ in their traces only *)

Lemma step_alike w self σ1 σ2 i :
  alike σ1 σ2 →
  alike (sys_step w self σ1 i) (sys_step w self σ2 i)
  ∧ ∃ δ, trace (sys_state (sys_step w self σ1 i)) = trace (sys_state σ1) ++ δ
         ∧ trace (sys_state (sys_step w self σ2 i)) = trace (sys_state σ2) ++ δ.
Proof.
  intros (Hq & Hs & Hc & Hf). unfold alike.
  destruct i as [req|]; simpl.
  - destruct (deliver_cases req σ1)
      as [(Hev1 & ->)|[(ev1 & Hev1 & Hid1 & ->)|(ev1 & Hev1 & Hid1 & Hnew1 & ->)]];
    destruct (deliver_cases req σ2)
      as [(Hev2 & ->)|[(ev2 & Hev2 & Hid2 & ->)|(ev2 & Hev2 & Hid2 & Hnew2 & ->)]];
    simpl; try congruence; simplify_eq.
    + split; [done|]. by eexists.
    + split; [done|]. by eexists.
    + rewrite Hs in Hid1. destruct Hid1; [congruence|done].
    + rewrite <- Hs in Hid2. destruct Hid2; [congruence|done].
    + rewrite Hq, Hs. split; [done|]. by eexists.
  - destruct (tick_cases w self σ1)
      as [([e1 He1] & ->)|[(Hf1 & Hq1 & ->)|(Hf1 & p1 & q1 & Hq1 & ->)]];
    destruct (tick_cases w self σ2)
      as [([e2 He2] & ->)|[(Hf2 & Hq2 & ->)|(Hf2 & p2 & q2 & Hq2 & ->)]];
    simpl; try congruence.
    + split; [done|]. exists []. by rewrite !app_nil_r.
    + split; [by rewrite Hs, Hc|]. by eexists.
    + rewrite Hq, Hq2 in Hq1. simplify_eq. rewrite Hs, Hc.
      split; [done|]. by eexists.
Qed.

Lemma run_alike w self schedule σ1 σ2 :
  alike σ1 σ2 →
  alike (run w self σ1 schedule) (run w self σ2 schedule)
  ∧ ∃ δ, trace (sys_state (run w self σ1 schedule)) = trace (sys_state σ1) ++ δ
         ∧ trace (sys_state (run w self σ2 schedule)) = trace (sys_state σ2) ++ δ.
Proof.
  revert σ1 σ2. induction schedule as [|i schedule IH]; intros σ1 σ2 Hal; simpl.
  { split; [done|]. exists []. by rewrite !app_nil_r. }
  destruct (step_alike w self σ1 σ2 i Hal) as (Hal' & δ1 & H1 & H2).
  destruct (IH _ _ Hal') as (Hal'' & δ2 & H3 & H4).
  split; [done|]. exists (δ1 ++ δ2).
  unfold run in *. by rewrite H3, H4, H1, H2, <- !app_assoc.
Qed.

(** The dedup set only grows. *)
Lemma step_processed_mono w self σ i x :
  x ∈ processed_events (sys_state σ) →
  x ∈ processed_events (sys_state (sys_step w self σ i)).
Proof.
  intros Hx. step_cases w self σ i; try done.
  apply elem_of_union. by right.
Qed.

Lemma run_processed_mono w self schedule σ x :
  x ∈ processed_events (sys_state σ) →
  x ∈ processed_events (sys_state (run w self σ schedule)).
Proof.
  revert σ. induction schedule as [|i schedule IH]; intros σ Hx; [done|].
  simpl. by apply IH, step_processed_mono.
Qed.

(** The loop never touches the dedup set. *)
Lemma tick_processed_events w self σ :
  processed_events (sys_state (tick w self σ)) = processed_events (sys_state σ).
Proof.
  by destruct (tick_cases w self σ)
    as [(Hf & ->)|[(Hf & Hq & ->)|(Hf & p & q & Hq & ->)]].
Qed.

(** After a delivery, the identifier it carried is in the dedup set. *)
Lemma deliver_records req ev σ :
  req_payload req !! "event" = Some ev →
  truthy (ev !! "client_msg_id") = true →
  ev !! "client_msg_id" ∈ processed_events (sys_state (deliver req σ)).
Proof.
  intros Hev Hid.
  destruct (deliver_cases req σ)
    as [(Hev' & ->)|[(ev' & Hev' & Hid' & ->)|(ev' & Hev' & Hid' & Hnew & ->)]];
    simpl; simplify_eq.
  - destruct Hid'; [congruence|done].
  - apply elem_of_union. left. by apply elem_of_singleton.
Qed.

(** A delivery whose identifier is in the dedup set changes the trace
    only: one log record and the acknowledgment. *)
Lemma deliver_duplicate req ev σ :
  req_payload req !! "event" = Some ev →
  ev !! "client_msg_id" ∈ processed_events (sys_state σ) →
  alike σ (deliver req σ)
  ∧ trace (sys_state (deliver req σ))
    = trace (sys_state σ)
      ++ [Log (LogAlreadyProcessed (ev !! "client_msg_id")); Ack (ack req)].
Proof.
  intros Hev Hin. unfold deliver, alike.
  rewrite (handler_discards req ev) by auto. simpl. by rewrite <- app_assoc.
Qed.

(** Passes of the loop over an empty queue send nothing. *)
Lemma idle_ticks w self n σ :
  event_queue (sys_state σ) = [] →
  event_queue (sys_state (run w self σ (ticks n))) = []
  ∧ notifications (trace (sys_state (run w self σ (ticks n))))
    = notifications (trace (sys_state σ)).
Proof.
  revert σ. induction n as [|n IH]; intros σ Hq; [done|].
  change (run w self σ (ticks (S n))) with (run w self (tick w self σ) (ticks n)).
  destruct (tick_cases w self σ)
    as [(Hf & Ht)|[(Hf & _ & Ht)|(Hf & p & q & Hq' & _)]]; [| |congruence].
  - rewrite Ht. by apply IH.
  - destruct (IH (tick w self σ)) as [IH1 IH2]; [by rewrite Ht|].
    split; [done|]. rewrite IH2, Ht. simpl.
    rewrite notifications_app. simpl. by rewrite app_nil_r.
Qed.

Lemma run_through_delivery w self before req rest :
  run w self initial_system (before ++ Deliver req :: rest)
  = run w self (deliver req (run w self initial_system before)) rest.
Proof. by rewrite run_app. Qed.

Lemma run_through_second_delivery w self before req between req' after :
  run w self initial_system (before ++ Deliver req :: between ++ Deliver req' :: after)
  = run w self
      (deliver req' (run w self initial_system (before ++ Deliver req :: between)))
      after.
Proof.
  replace (before ++ Deliver req :: between ++ Deliver req' :: after)
    with ((before ++ Deliver req :: between) ++ Deliver req' :: after)
    by by rewrite <- app_assoc.
  by rewrite run_app.
Qed.

Lemma run_without_second_delivery w self before req between after :
  run w self initial_system (before ++ Deliver req :: between ++ after)
  = run w self (run w self initial_system (before ++ Deliver req :: between)) after.
Proof.
  replace (before ++ Deliver req :: between ++ after)
    with ((before ++ Deliver req :: between) ++ after)
    by by rewrite <- app_assoc.
  by rewrite run_app.
Qed.

(** Once delivered, an identifier is in the dedup set for the rest of
    the run. *)
Lemma delivered_stays_recorded w self before req ev rest :
  req_payload req !! "event" = Some ev →
  truthy (ev !! "client_msg_id") = true →
  ev !! "client_msg_id"
  ∈ processed_events (sys_state (run w self initial_system (before ++ Deliver req :: rest))).
Proof.
  intros Hev Hid. rewrite run_through_delivery.
  by apply run_processed_mono, deliver_records.
Qed.

(** A relevant event delivered to the fresh process and followed by at
    least one pass of the loop is relayed once. *)
Lemma first_delivery_relayed w self req ev n text user_name channel_name :
  let message :=
    notification_text (channel_name_with_emoji self channel_name) user_name text in
  req_payload req !! "event" = Some ev →
  truthy (ev !! "client_msg_id") = true →
  relevant self ev text → enriched (w 0) ev user_name channel_name →
  send_message (w 0) (telegram_chat_id self) message = Ok tt →
  notifications (trace (sys_state
    (run w self initial_system (Deliver req :: ticks (S n))))) = [message].
Proof.
  intros message Hev Hid Hrel Hen Hsend.
  change (run w self initial_system (Deliver req :: ticks (S n)))
    with (run w self (tick w self (deliver req initial_system)) (ticks n)).
  assert (deliver req initial_system =
          {| sys_state :=
               {| event_queue := [req_payload req];
                  processed_events := {[ ev !! "client_msg_id" ]} ∪ ∅;
                  trace := [QueueAppend (req_payload req);
                            SetAdd (ev !! "client_msg_id"); Ack (ack req)] |};
             sys_clock := 0; sys_fault := None |}) as Hd.
  { unfold deliver. simpl.
    rewrite (handler_accepts req ev initial_state);
      [done..|apply not_elem_of_empty]. }
  assert (default ∅ (req_payload req !! "event") = ev) as Hdef by by rewrite Hev.
  destruct (process_message_relayed (w 0) self (req_payload req) text
              user_name channel_name) as [Hok Heff]; rewrite ?Hdef; [done..|].
  fold message in Heff. rewrite Hdef in Heff.
  destruct (idle_ticks w self n (tick w self (deliver req initial_system)))
    as [_ ->].
  - rewrite (tick_busy w self _ (req_payload req) []) by by rewrite Hd.
    by rewrite Hd.
  - rewrite (tick_busy w self _ (req_payload req) []) by by rewrite Hd.
    rewrite Hd. simpl. rewrite Hok, Heff. done.
Qed.

(** ** C1: a redelivered event *)

(** C1: when a request whose event carries an identifier has been
    delivered, a second delivery of the same payload, at any later point
    of the run, is discarded: the handler logs it, does not enqueue it and
    still returns the acknowledgment, so the sink receives exactly what it
    receives without the second delivery. For a relevant event whose
    lookups and delivery succeed, delivered twice to the fresh process
    with at least one pass of the loop, that is exactly one notification. *)
Theorem C1_redelivery_sends_once w self req req' ev before between after a b
    text user_name channel_name :
  let message :=
    notification_text (channel_name_with_emoji self channel_name) user_name text in
  req_payload req !! "event" = Some ev →
  truthy (ev !! "client_msg_id") = true →
  req_payload req' = req_payload req →
  let σ := run w self initial_system (before ++ Deliver req :: between) in
  socket_mode_event_handler req' (sys_state σ)
  = (Ok (ack req'),
     emit_on (Log (LogAlreadyProcessed (ev !! "client_msg_id"))) (sys_state σ))
  ∧ event_queue (sys_state (deliver req' σ)) = event_queue (sys_state σ)
  ∧ notifications (trace (sys_state (run w self initial_system
      (before ++ Deliver req :: between ++ Deliver req' :: after))))
    = notifications (trace (sys_state (run w self initial_system
        (before ++ Deliver req :: between ++ after))))
  ∧ (relevant self ev text → enriched (w 0) ev user_name channel_name →
     send_message (w 0) (telegram_chat_id self) message = Ok tt →
     0 < a + b →
     notifications (trace (sys_state (run w self initial_system
       (Deliver req :: ticks a ++ Deliver req' :: ticks b)))) = [message]).
Proof.
  intros message Hev Hid Hsame σ.
  assert (req_payload req' !! "event" = Some ev) as Hev' by by rewrite Hsame.
  assert (∀ before between after,
    notifications (trace (sys_state (run w self initial_system
      (before ++ Deliver req :: between ++ Deliver req' :: after))))
    = notifications (trace (sys_state (run w self initial_system
        (before ++ Deliver req :: between ++ after))))) as Hsink.
  { clear σ before between after. intros before between after.
    rewrite run_through_second_delivery, run_without_second_delivery.
    set (σ := run w self initial_system (before ++ Deliver req :: between)).
    destruct (deliver_duplicate req' ev σ Hev') as [Hal Htr].
    { by apply delivered_stays_recorded. }
    destruct (run_alike w self after _ _ Hal) as (_ & δ & -> & ->).
    rewrite Htr, !notifications_app. simpl. by rewrite app_nil_r. }
  assert (ev !! "client_msg_id" ∈ processed_events (sys_state σ)) as Hin
    by by apply delivered_stays_recorded.
  split_and!.
  - by apply handler_discards; auto.
  - by destruct (deliver_duplicate req' ev σ Hev' Hin) as [(-> & _) _].
  - apply Hsink.
  - intros Hrel Hen Hsend Hab.
    specialize (Hsink [] (ticks a) (ticks b)). rewrite !app_nil_l in Hsink.
    rewrite Hsink.
    replace (ticks a ++ ticks b) with (ticks (S (a + b - 1))).
    + by eapply first_delivery_relayed.
    + unfold ticks. rewrite <- replicate_add. f_equal. lia.
Qed.

Lemma C1_redelivery_sends_once_witness :
  let σ := run (fun _ => Scenario.slack) Scenario.bot initial_system
             ([] ++ Deliver (Scenario.req "e1") :: [Tick]) in
  socket_mode_event_handler (Scenario.req "e2") (sys_state σ)
  = (Ok (ack (Scenario.req "e2")),
     emit_on (Log (LogAlreadyProcessed (Some "m1"))) (sys_state σ))
  ∧ notifications (trace (sys_state (run (fun _ => Scenario.slack) Scenario.bot
      initial_system
      (Deliver (Scenario.req "e1") :: ticks 1
         ++ Deliver (Scenario.req "e2") :: ticks 2))))
    = ["Канал: general 🔧, Пользователь: Ann, Сообщение: <@U1> ping"].
Proof.
  intros σ.
  destruct (C1_redelivery_sends_once (fun _ => Scenario.slack) Scenario.bot
              (Scenario.req "e1") (Scenario.req "e2")
              (default ∅ (Scenario.m1 !! "event")) [] [Tick] [] 1 2
              "<@U1> ping" "Ann" "general") as (H1 & _ & _ & H4).
  - vm_compute. reflexivity.
  - vm_compute. reflexivity.
  - reflexivity.
  - split; [exact H1|].
    rewrite H4; [vm_compute; reflexivity| | |vm_compute; reflexivity|lia].
    + repeat split; vm_compute; reflexivity.
    + exists {[ "user" := {[ "real_name" := "Ann" ]} ]},
        {[ "channel" := {[ "name" := "general" ]} ]},
        {[ "real_name" := "Ann" ]}, {[ "name" := "general" ]}.
      repeat split; vm_compute; reflexivity.
Defined.

(** ** C10: the dedup decision is final *)

(** C10: once a request whose event carries an identifier has been
    delivered, the identifier is in the dedup set at every later point of
    the run, whatever the collaborators answered and whether or not the
    loop still runs: the loop never changes the set. Every later delivery
    carrying the same identifier is discarded by the handler: logged, not
    enqueued, acknowledged. *)
Theorem C10_dedup_is_final w self before req ev after req' ev' :
  req_payload req !! "event" = Some ev →
  truthy (ev !! "client_msg_id") = true →
  req_payload req' !! "event" = Some ev' →
  ev' !! "client_msg_id" = ev !! "client_msg_id" →
  let σ := run w self initial_system (before ++ Deliver req :: after) in
  ev !! "client_msg_id" ∈ processed_events (sys_state σ)
  ∧ socket_mode_event_handler req' (sys_state σ)
    = (Ok (ack req'),
       emit_on (Log (LogAlreadyProcessed (ev !! "client_msg_id"))) (sys_state σ))
  ∧ event_queue (sys_state (deliver req' σ)) = event_queue (sys_state σ)
  ∧ notifications (trace (sys_state (deliver req' σ)))
    = notifications (trace (sys_state σ))
  ∧ ∀ σ', processed_events (sys_state (tick w self σ'))
          = processed_events (sys_state σ').
Proof.
  intros Hev Hid Hev' Hsame σ.
  assert (ev !! "client_msg_id" ∈ processed_events (sys_state σ)) as Hin
    by by apply delivered_stays_recorded.
  assert (ev' !! "client_msg_id" ∈ processed_events (sys_state σ)) as Hin'
    by by rewrite Hsame.
  destruct (deliver_duplicate req' ev' σ Hev' Hin') as [(Hq & _) Htr].
  split_and!; [done| |done| |apply tick_processed_events].
  - rewrite <- Hsame. by apply handler_discards; auto.
  - rewrite Htr, notifications_app. simpl. by rewrite app_nil_r.
Qed.

Lemma C10_dedup_is_final_witness :
  let σ := run Scenario.outage Scenario.bot initial_system
             ([] ++ Deliver (Scenario.req "e1") :: [Tick; Tick]) in
  Some "m1" ∈ processed_events (sys_state σ)
  ∧ event_queue (sys_state (deliver (Scenario.req "e2") σ)) = event_queue (sys_state σ)
  ∧ notifications (trace (sys_state (deliver (Scenario.req "e2") σ))) = [].
Proof.
  intros σ.
  destruct (C10_dedup_is_final Scenario.outage Scenario.bot []
              (Scenario.req "e1") (default ∅ (Scenario.m1 !! "event")) [Tick; Tick]
              (Scenario.req "e2") (default ∅ (Scenario.m1 !! "event")))
    as (H1 & _ & H3 & H4 & _).
  - vm_compute. reflexivity.
  - vm_compute. reflexivity.
  - vm_compute. reflexivity.
  - reflexivity.
  - split_and!; [exact H1|exact H3|].
    fold σ in H4. rewrite H4. vm_compute. reflexivity.
Defined.

(** * Further properties of the code *)

(** ** The paths of [process_message] *)

Lemma names_of_ok user_info channel_info user_name channel_name :
  names_of user_info channel_info = Ok (user_name, channel_name) ↔
  ∃ u c, user_info !! "user" = Some u ∧ u !! "real_name" = Some user_name
         ∧ channel_info !! "channel" = Some c ∧ c !! "name" = Some channel_name.
Proof.
  unfold names_of, response_item, subscript.
  cbn [mbind result_bind mret result_ret].
  split.
  - destruct (user_info !! "user") as [u|]; simpl; [|done].
    destruct (u !! "real_name") as [un|] eqn:Hu; simpl; [|done].
    destruct (channel_info !! "channel") as [c|]; simpl; [|done].
    destruct (c !! "name") as [cn|] eqn:Hc; simpl; [|done].
    intros [= -> ->]. by exists u, c.
  - intros (u & c & -> & Hu & -> & Hc). simpl. rewrite Hu. simpl. by rewrite Hc.
Qed.

Lemma names_of_raise user_info channel_info e :
  names_of user_info channel_info = Raise e → is_SlackApiError e = false.
Proof.
  unfold names_of, response_item, subscript.
  cbn [mbind result_bind mret result_ret].
  destruct (user_info !! "user") as [u|]; simpl; [|by intros [= <-]].
  destruct (u !! "real_name") as [un|]; simpl; [|by intros [= <-]].
  destruct (channel_info !! "channel") as [c|]; simpl; [|by intros [= <-]].
  destruct (c !! "name") as [cn|]; simpl; [done|by intros [= <-]].
Qed.

(** Every call of [process_message] follows one of the paths. *)
Lemma process_message_paths w self p :
  process_message_path w self p (outcome_of w self p) (effects_of w self p).
Proof.
  destruct (bool_decide (event_of p !! "type" = Some "message")) eqn:Hty.
  2:{ apply bool_decide_eq_false in Hty.
      destruct (process_message_filtered w self p) as [-> Heff].
      { intros t (? & _). done. }
      assert (effects_of w self p = [Log (LogProcessing p)]) as ->.
      { revert Heff. pm_unfold. fold (event_of p).
        rewrite bool_decide_eq_false_2 by done. done. }
      apply path_not_a_message. by left. }
  apply bool_decide_eq_true in Hty.
  destruct (event_of p !! "text") as [text|] eqn:Htx.
  2:{ assert (outcome_of w self p = Ok tt ∧ effects_of w self p = [Log (LogProcessing p)])
        as [-> ->].
      { pm_unfold. fold (event_of p). rewrite Htx.
        rewrite (bool_decide_eq_false_2 (is_Some None)) by by intros [? ?].
        by rewrite andb_false_r. }
      apply path_not_a_message. by right. }
  destruct (truthy (event_of p !! "user")) eqn:Hu.
  2:{ assert (outcome_of w self p = Ok tt
              ∧ effects_of w self p = [Log (LogProcessing p); Log LogNoUser])
        as [-> ->].
      { pm_unfold. fold (event_of p). rewrite Hty, Htx, Hu.
        rewrite !bool_decide_eq_true_2 by eauto. done. }
      by eapply path_no_user. }
  destruct (py_in (mention_marker self) text) eqn:Hin.
  2:{ assert (outcome_of w self p = Ok tt
              ∧ effects_of w self p = [Log (LogProcessing p)]) as [-> ->].
      { pm_unfold. fold (event_of p). rewrite Hty, Htx, Hu.
        rewrite !bool_decide_eq_true_2 by eauto. cbn [andb]. by rewrite Hin. }
      by eapply path_no_mention. }
  assert (relevant self (event_of p) text) as Hrel by done.
  destruct (users_info w (event_of p !! "user")) as [ui|e] eqn:Hui.
  2:{ assert (outcome_of w self p = after_lookup_failure e
              ∧ effects_of w self p
                = [Log (LogProcessing p); CallUsersInfo (event_of p !! "user")]
                  ++ lookup_failure_log e) as [-> ->].
      { pm_unfold. fold (event_of p). rewrite Hty, Htx, Hu.
        rewrite !bool_decide_eq_true_2 by eauto. cbn [andb]. rewrite Hin.
        simpl. rewrite Hui. simpl. by destruct e. }
      by eapply path_user_lookup_failed. }
  destruct (conversations_info w (event_of p !! "channel")) as [ci|e] eqn:Hci.
  2:{ assert (outcome_of w self p = after_lookup_failure e
              ∧ effects_of w self p
                = [Log (LogProcessing p); CallUsersInfo (event_of p !! "user");
                   CallConversationsInfo (event_of p !! "channel")]
                  ++ lookup_failure_log e) as [-> ->].
      { pm_unfold. fold (event_of p). rewrite Hty, Htx, Hu.
        rewrite !bool_decide_eq_true_2 by eauto. cbn [andb]. rewrite Hin.
        simpl. rewrite Hui, Hci. simpl. by destruct e. }
      by eapply path_channel_lookup_failed. }
  destruct (names_of ui ci) as [[user_name channel_name]|e] eqn:Hnames.
  - apply names_of_ok in Hnames. destruct Hnames as (u & c & Hu1 & Hu2 & Hc1 & Hc2).
    assert (enriched w (event_of p) user_name channel_name) as Hen
      by by exists ui, ci, u, c.
    destruct (send_message w (telegram_chat_id self)
                (notification_text (channel_name_with_emoji self channel_name)
                   user_name text)) as [[]|e] eqn:Hsend.
    + destruct (process_message_relayed w self p text user_name channel_name
                  Hrel Hen Hsend) as [-> ->].
      by apply path_relayed.
    + destruct (is_Exception e) eqn:Hexc.
      * destruct (process_message_send_failed w self p text user_name channel_name e
                    Hrel Hen Hsend Hexc) as [-> ->].
        by apply path_send_failed.
      * destruct (process_message_send_escaped w self p text user_name channel_name e
                    Hrel Hen Hsend Hexc) as [-> ->].
        by apply path_send_escaped.
  - assert (outcome_of w self p = Raise e
            ∧ effects_of w self p
              = [Log (LogProcessing p); CallUsersInfo (event_of p !! "user");
                 CallConversationsInfo (event_of p !! "channel")]) as [-> ->].
    { revert Hnames. unfold names_of. pm_unfold. fold (event_of p).
      rewrite Hty, Htx, Hu.
      rewrite !bool_decide_eq_true_2 by eauto. cbn [andb]. rewrite Hin.
      simpl. rewrite Hui, Hci. simpl.
      destruct (ui !! "user") as [u|]; simpl; [|by intros [= ->]].
      destruct (u !! "real_name") as [un|]; simpl; [|by intros [= ->]].
      destruct (ci !! "channel") as [c|]; simpl; [|by intros [= ->]].
      destruct (c !! "name") as [cn|]; simpl; [done|by intros [= ->]]. }
    by eapply path_missing_field.
Qed.

Lemma process_message_outcome w self p s :
  fst (process_message w self p s) = outcome_of w self p.
Proof. by rewrite process_message_emits. Qed.

(** ** [process_message]: what it leaves alone, what it calls *)

(** X1: [process_message] never changes the queue or the dedup set,
    whatever the event, the collaborators and the outcome; it only adds
    to what was observed before. *)
Theorem process_message_frame w self p s :
  let s' := snd (process_message w self p s) in
  event_queue s' = event_queue s
  ∧ processed_events s' = processed_events s
  ∧ trace s `prefix_of` trace s'.
Proof.
  intros s'. subst s'. rewrite process_message_emits. simpl.
  split_and!; [done..|]. by eexists.
Qed.

(** X2: an event that fails the filter (not a message, no text, no user,
    or no marker in the text) costs no call to Slack or Telegram, and
    [process_message] returns normally. *)
Theorem filtered_event_makes_no_call w self p s :
  (∀ text, ¬ relevant self (event_of p) text) →
  let new := effects_of w self p in
  fst (process_message w self p s) = Ok tt
  ∧ users_info_calls new = []
  ∧ conversations_info_calls new = []
  ∧ send_message_calls new = []
  ∧ notifications new = [].
Proof.
  intros Hno new. subst new. rewrite process_message_outcome.
  destruct (process_message_filtered w self p Hno) as [-> [-> | ->]]; done.
Qed.

Lemma filtered_event_makes_no_call_witness :
  let new := effects_of Scenario.slack Scenario.unidentified_bot Scenario.m1 in
  fst (process_message Scenario.slack Scenario.unidentified_bot Scenario.m1
         initial_state) = Ok tt
  ∧ users_info_calls new = []
  ∧ conversations_info_calls new = []
  ∧ send_message_calls new = []
  ∧ notifications new = [].
Proof.
  apply (filtered_event_makes_no_call Scenario.slack Scenario.unidentified_bot
           Scenario.m1 initial_state).
  intros text (_ & Htx & Hin & _).
  vm_compute in Htx. injection Htx as <-. vm_compute in Hin. discriminate.
Defined.

(** X3: while processing one event, each collaborator is called at most
    once, Telegram is called only after both lookups returned the two
    names, and the text handed to it is the text composed from them; at
    most one notification is delivered. *)
Theorem process_message_call_discipline w self p :
  let new := effects_of w self p in
  (length (users_info_calls new) ≤ 1)%nat
  ∧ (length (conversations_info_calls new) ≤ 1)%nat
  ∧ (length (send_message_calls new) ≤ 1)%nat
  ∧ (length (notifications new) ≤ 1)%nat
  ∧ (∀ c, c ∈ conversations_info_calls new →
       ∃ user_info, users_info w (event_of p !! "user") = Ok user_info)
  ∧ (∀ t, t ∈ send_message_calls new →
       ∃ text user_name channel_name,
         relevant self (event_of p) text
         ∧ enriched w (event_of p) user_name channel_name
         ∧ t = notification_text (channel_name_with_emoji self channel_name)
                 user_name text)
  ∧ (∀ t, t ∈ notifications new → t ∈ send_message_calls new).
Proof.
  intros new. subst new.
  destruct (process_message_paths w self p)
    as [H|text Hty Htx Hu|text Hty Htx Hu Hin|text e Hrel Hui|text ui e Hrel Hui Hci
       |text ui ci e' Hrel Hui Hci Hn|text un cn e' Hrel Hen Hs Hexc
       |text un cn e' Hrel Hen Hs Hexc|text un cn Hrel Hen Hs];
    try destruct e;
    (split_and!;
     [simpl; lia|simpl; lia|simpl; lia|simpl; lia
     |intros c Hc|intros t Ht|intros t Ht]);
    simpl in *; try (by apply elem_of_nil in Hc); try (by apply elem_of_nil in Ht);
    try (by eauto); try done.
  all: try (destruct Hen as (ui & ci & u' & c' & Hui & _); by eauto).
  all: apply list_elem_of_singleton in Ht as ->; eauto 10.
Qed.

(** X4: an exception that leaves [process_message] is never a
    [SlackApiError]; the event was relevant, and nothing was notified for
    it. Either Telegram was not called at all (the exception came from
    the enrichment), or the exception is outside class [Exception] and
    was raised by the one call of [send_message]. *)
Theorem process_message_raises_only_unhandled w self p s e :
  fst (process_message w self p s) = Raise e →
  is_SlackApiError e = false
  ∧ (∃ text, relevant self (event_of p) text)
  ∧ notifications (effects_of w self p) = []
  ∧ (send_message_calls (effects_of w self p) = []
     ∨ is_Exception e = false
       ∧ ∃ t, send_message_calls (effects_of w self p) = [t]
              ∧ send_message w (telegram_chat_id self) t = Raise e).
Proof.
  rewrite process_message_outcome.
  destruct (process_message_paths w self p)
    as [ | | |text e' Hrel|text ui e' Hrel|text ui ci e' Hrel Hui Hci Hn
       |text un cn e' Hrel Hen Hs Hexc|text un cn e' Hrel Hen Hs Hexc|text un cn];
    try done.
  - destruct e'; simpl; [done|intros [= <-]; split_and!; eauto..].
  - destruct e'; simpl; [done|intros [= <-]; split_and!; eauto..].
  - intros [= <-]. split_and!; [by eapply names_of_raise|by eauto|done|by left].
  - intros [= <-]. split_and!; [by destruct e'|by eauto|done|].
    right. split; [done|]. by eexists.
Qed.

Lemma process_message_raises_only_unhandled_witness :
  is_SlackApiError (BaseException "CancelledError") = false
  ∧ (∃ text, relevant Scenario.bot (event_of Scenario.m1) text)
  ∧ notifications (effects_of Scenario.sink_cancelled Scenario.bot Scenario.m1) = []
  ∧ (send_message_calls (effects_of Scenario.sink_cancelled Scenario.bot Scenario.m1)
     = []
     ∨ is_Exception (BaseException "CancelledError") = false
       ∧ ∃ t, send_message_calls
                (effects_of Scenario.sink_cancelled Scenario.bot Scenario.m1) = [t]
              ∧ send_message Scenario.sink_cancelled
                  (telegram_chat_id Scenario.bot) t
                = Raise (BaseException "CancelledError")).
Proof.
  apply (process_message_raises_only_unhandled Scenario.sink_cancelled Scenario.bot
           Scenario.m1 initial_state).
  vm_compute. reflexivity.
Defined.

(** ** The handler: when it raises, when it enqueues *)

(** X5: the handler returns the acknowledgment, with the envelope
    identifier of the request, exactly when the payload has the key
    [event]; otherwise it raises [KeyError] before touching the queue, the
    set or the log. *)
Theorem handler_acknowledges_iff_event req s :
  (fst (socket_mode_event_handler req s)
   = Ok {| resp_envelope_id := envelope_id req |}
   ↔ is_Some (req_payload req !! "event"))
  ∧ (req_payload req !! "event" = None ↔
     socket_mode_event_handler req s = (Raise (KeyError "event"), s)).
Proof.
  destruct (req_payload req !! "event") as [ev|] eqn:Hev.
  - destruct (decide (truthy (ev !! "client_msg_id") = true
                      ∧ ev !! "client_msg_id" ∉ processed_events s)) as [[Hid Hnew]|Hno].
    + rewrite (handler_accepts req ev s) by done. simpl.
      split; (split; [by eauto|done]).
    + rewrite (handler_discards req ev s); [|done|].
      * simpl. split; (split; [by eauto|done]).
      * destruct (truthy (ev !! "client_msg_id")); [right|by left].
        destruct (decide (ev !! "client_msg_id" ∈ processed_events s)); [done|].
        destruct Hno. done.
  - rewrite (handler_raises req s) by done. simpl.
    split; [split; [done|by intros [? ?]]|done].
Qed.

(** X6: an event whose [client_msg_id] is the empty string is treated as
    one without identifier: it is logged and acknowledged, but neither
    enqueued nor recorded, in whatever state the handler is called. *)
Theorem handler_discards_empty_id req ev s :
  req_payload req !! "event" = Some ev →
  ev !! "client_msg_id" = Some "" →
  socket_mode_event_handler req s
  = (Ok (ack req), emit_on (Log (LogAlreadyProcessed (Some ""))) s).
Proof.
  intros Hev Hid. rewrite (handler_discards req ev s) by (rewrite ?Hid; auto).
  by rewrite Hid.
Qed.

Lemma handler_discards_empty_id_witness :
  socket_mode_event_handler Scenario.blank_req initial_state
  = (Ok (ack Scenario.blank_req),
     emit_on (Log (LogAlreadyProcessed (Some ""))) initial_state).
Proof.
  apply (handler_discards_empty_id Scenario.blank_req (event_of Scenario.blank)).
  - vm_compute. reflexivity.
  - vm_compute. reflexivity.
Defined.

(** ** Runs: identifiers, acknowledgments *)

Lemma acks_app a b : acks (a ++ b) = acks a ++ acks b.
Proof. apply omap_app. Qed.

Lemma deliveries_app a b : deliveries (a ++ b) = deliveries a ++ deliveries b.
Proof. apply omap_app. Qed.

Lemma effects_of_acks w self p : acks (effects_of w self p) = [].
Proof.
  destruct (process_message_shape w self p) as (δ & _ & -> & Hq).
  unfold acks; simpl. apply omap_quiet; [|done]. by intros [[]| | | | | | | | | |].
Qed.

Lemma effects_of_one_notification w self p :
  (length (notifications (effects_of w self p)) ≤ 1)%nat.
Proof.
  destruct (process_message_paths w self p)
    as [ | | |text e|text ui e| | | | ]; try destruct e; simpl; lia.
Qed.

(** The identifiers added to the set are those of the accepted payloads,
    in order; none is empty or [None]; each was carried by a delivered
    request. *)
Lemma run_identifier_invariant w self schedule :
  let s := sys_state (run w self initial_system schedule) in
  recorded (trace s) = event_id_of <$> accepted (trace s)
  ∧ Forall (fun x => truthy x = true) (recorded (trace s))
  ∧ ∀ x, x ∈ processed_events s →
      ∃ req, req ∈ deliveries schedule ∧ event_id_of (req_payload req) = x.
Proof.
  induction schedule as [|i schedule IH] using rev_ind.
  { simpl. split_and!; [done|constructor|]. intros x Hx. by apply not_elem_of_empty in Hx. }
  rewrite run_snoc. simpl in IH.
  set (σ := run w self initial_system schedule) in *.
  destruct IH as (IHr & IHt & IHd).
  assert (∀ x, x ∈ processed_events (sys_state σ) →
            ∃ req, req ∈ deliveries (schedule ++ [i])
                   ∧ event_id_of (req_payload req) = x) as IHd'.
  { intros x Hx. destruct (IHd x Hx) as (r & Hr & Hx').
    exists r. split; [|done]. rewrite deliveries_app. apply elem_of_app. by left. }
  step_cases w self σ i; rewrite ?recorded_app, ?accepted_app; simpl;
    rewrite ?app_nil_r; try done.
  - rewrite fmap_app. simpl. split_and!.
    + rewrite IHr. f_equal. unfold event_id_of, event_of. by rewrite Hev.
    + apply Forall_app. split; [done|]. by repeat constructor.
    + intros x [->%elem_of_singleton|Hx]%elem_of_union; [|by apply IHd'].
      exists req. split.
      * rewrite deliveries_app. apply elem_of_app. right. simpl.
        by apply list_elem_of_singleton.
      * unfold event_id_of, event_of. by rewrite Hev.
  - rewrite !recorded_app, !accepted_app, effects_of_recorded, effects_of_accepted.
    destruct (outcome_of (w (sys_clock σ)) self p); simpl; by rewrite ?app_nil_r.
Qed.

Lemma run_notifications_bound w self schedule :
  let s := sys_state (run w self initial_system schedule) in
  (length (notifications (trace s)) ≤ length (processing (trace s)))%nat.
Proof.
  induction schedule as [|i schedule IH] using rev_ind; [simpl; lia|].
  rewrite run_snoc. simpl in IH.
  set (σ := run w self initial_system schedule) in *.
  step_cases w self σ i; rewrite ?notifications_app, ?processing_app; simpl;
    rewrite ?app_nil_r; try done.
  rewrite !notifications_app, !processing_app, effects_of_processing.
  pose proof (effects_of_one_notification (w (sys_clock σ)) self p).
  rewrite !length_app.
  destruct (outcome_of (w (sys_clock σ)) self p); simpl; lia.
Qed.

(** X7: an event with a non-empty identifier that no earlier request of
    the run carried is never suppressed: the handler enqueues it, records
    the identifier and acknowledges. *)
Theorem fresh_identifier_is_accepted w self schedule req ev :
  req_payload req !! "event" = Some ev →
  truthy (ev !! "client_msg_id") = true →
  (∀ req', req' ∈ deliveries schedule →
           event_id_of (req_payload req') ≠ ev !! "client_msg_id") →
  let σ := run w self initial_system schedule in
  socket_mode_event_handler req (sys_state σ)
  = (Ok (ack req),
     {| event_queue := event_queue (sys_state σ) ++ [req_payload req];
        processed_events := {[ ev !! "client_msg_id" ]} ∪ processed_events (sys_state σ);
        trace := trace (sys_state σ)
                 ++ [QueueAppend (req_payload req); SetAdd (ev !! "client_msg_id")] |}).
Proof.
  intros Hev Hid Hfresh σ. apply handler_accepts; [done..|].
  intros Hin.
  destruct (run_identifier_invariant w self schedule) as (_ & _ & Hd).
  destruct (Hd _ Hin) as (r & Hr & Hx). by apply (Hfresh r).
Qed.

Lemma fresh_identifier_is_accepted_witness :
  let σ := run (fun _ => Scenario.slack) Scenario.bot initial_system
             [Deliver (Scenario.req "e1"); Tick] in
  socket_mode_event_handler Scenario.req2 (sys_state σ)
  = (Ok (ack Scenario.req2),
     {| event_queue := event_queue (sys_state σ) ++ [Scenario.m2];
        processed_events :=
          {[ event_of Scenario.m2 !! "client_msg_id" ]} ∪ processed_events (sys_state σ);
        trace := trace (sys_state σ)
                 ++ [QueueAppend Scenario.m2;
                     SetAdd (event_of Scenario.m2 !! "client_msg_id")] |}).
Proof.
  apply (fresh_identifier_is_accepted (fun _ => Scenario.slack) Scenario.bot
           [Deliver (Scenario.req "e1"); Tick] Scenario.req2 (event_of Scenario.m2)).
  - vm_compute. reflexivity.
  - vm_compute. reflexivity.
  - intros req' Hin. simpl in Hin. apply list_elem_of_singleton in Hin as ->.
    vm_compute. discriminate.
Defined.

(** X8: in every run, no identifier is processed twice: the identifiers
    of the payloads [process_message] was entered with are pairwise
    distinct and non-empty, and no more notifications were delivered than
    payloads were processed. *)
Theorem at_most_once_per_identifier w self schedule :
  let tr := trace (sys_state (run w self initial_system schedule)) in
  NoDup (event_id_of <$> processing tr)
  ∧ Forall (fun p => truthy (event_id_of p) = true) (processing tr)
  ∧ (length (notifications tr) ≤ length (processing tr))%nat.
Proof.
  intros tr. subst tr.
  destruct (run_queue_invariant w self schedule) as [Ha Hp].
  destruct (run_recorded_invariant w self schedule) as [Hn _].
  destruct (run_identifier_invariant w self schedule) as (Hr & Ht & _).
  simpl in *.
  set (tr := trace (sys_state (run w self initial_system schedule))) in *.
  rewrite Hr, Ha, <- Hp, fmap_app in Hn. rewrite Hr, Ha, <- Hp, fmap_app in Ht.
  split_and!.
  - by apply NoDup_app in Hn as (? & _).
  - apply Forall_app in Ht as [Ht _]. by apply Forall_fmap in Ht.
  - apply run_notifications_bound.
Qed.

(** X9: the handler acknowledges every request whose payload has an
    [event], duplicate or not, and no other: in every run the
    acknowledgments returned are those of these requests, in the order of
    delivery. *)
Theorem acks_follow_deliveries w self schedule :
  acks (trace (sys_state (run w self initial_system schedule)))
  = ack <$> filter has_event (deliveries schedule).
Proof.
  induction schedule as [|i schedule IH] using rev_ind; [done|].
  rewrite run_snoc, deliveries_app, filter_app, fmap_app, <- IH.
  set (σ := run w self initial_system schedule) in *.
  assert (∀ req ev, req_payload req !! "event" = Some ev →
            filter has_event [req] = [req]) as Hyes.
  { intros req ev Hev. rewrite filter_cons_True; [done|].
    unfold has_event. apply bool_decide_pack. by rewrite Hev. }
  assert (∀ req, req_payload req !! "event" = None →
            filter has_event [req] = []) as Hnot.
  { intros req Hev. rewrite filter_cons_False; [done|].
    unfold has_event. intros H%bool_decide_unpack. rewrite Hev in H.
    by destruct H. }
  step_cases w self σ i; rewrite ?acks_app; simpl.
  - by rewrite Hnot.
  - by erewrite Hyes.
  - by erewrite Hyes.
  - by rewrite app_nil_r.
  - done.
  - rewrite !acks_app, effects_of_acks.
    by destruct (outcome_of (w (sys_clock σ)) self p).
Qed.

(** ** The loop: pace, fault, sink failure *)

(** X10: once an exception has left [process_event_queue], nothing is
    processed or notified any more, whatever is delivered later, while
    the handler goes on accepting: what waits in the queue stays there
    and the queue can only grow. *)
Theorem dead_loop_processes_nothing w self σ e schedule :
  sys_fault σ = Some e →
  let σ' := run w self σ schedule in
  sys_fault σ' = Some e
  ∧ sys_clock σ' = sys_clock σ
  ∧ processing (trace (sys_state σ')) = processing (trace (sys_state σ))
  ∧ notifications (trace (sys_state σ')) = notifications (trace (sys_state σ))
  ∧ event_queue (sys_state σ) `prefix_of` event_queue (sys_state σ').
Proof.
  intros Hdead σ'. subst σ'.
  induction schedule as [|i schedule IH] using rev_ind; [done|].
  rewrite run_snoc. set (σ1 := run w self σ schedule) in *.
  destruct IH as (IHf & IHc & IHp & IHn & IHq).
  step_cases w self σ1 i; rewrite ?processing_app, ?notifications_app; simpl;
    rewrite ?app_nil_r; try done; try congruence.
  split_and!; [done..|]. by apply prefix_app_r.
Qed.

Lemma dead_loop_processes_nothing_witness :
  let σ := run (fun _ => Scenario.unreachable) Scenario.bot initial_system
             [Deliver (Scenario.req "e1"); Tick] in
  let σ' := run (fun _ => Scenario.unreachable) Scenario.bot σ
              [Deliver Scenario.req2; Tick; Tick] in
  sys_fault σ' = Some (OtherException "URLError")
  ∧ sys_clock σ' = sys_clock σ
  ∧ processing (trace (sys_state σ')) = processing (trace (sys_state σ))
  ∧ notifications (trace (sys_state σ')) = notifications (trace (sys_state σ))
  ∧ event_queue (sys_state σ) `prefix_of` event_queue (sys_state σ').
Proof.
  intros σ.
  apply (dead_loop_processes_nothing (fun _ => Scenario.unreachable) Scenario.bot σ
           (OtherException "URLError") [Deliver Scenario.req2; Tick; Tick]).
  vm_compute. reflexivity.
Defined.

(** X11: the loop takes at most one event per pass. When it is still
    running after [n] passes in a row, it has taken the first [n] queued
    payloads (all of them when fewer wait), in queue order, and left the
    rest. *)
Theorem one_event_per_pass w self n σ :
  sys_fault (run w self σ (ticks n)) = None →
  let σ' := run w self σ (ticks n) in
  event_queue (sys_state σ') = drop n (event_queue (sys_state σ))
  ∧ processing (trace (sys_state σ'))
    = processing (trace (sys_state σ)) ++ take n (event_queue (sys_state σ))
  ∧ sys_clock σ' = sys_clock σ + n.
Proof.
  revert σ. induction n as [|n IH]; intros σ Hf σ'; subst σ'.
  { simpl. rewrite app_nil_r, Nat.add_0_r. by rewrite drop_0. }
  change (run w self σ (ticks (S n))) with (run w self (tick w self σ) (ticks n)) in *.
  assert (sys_fault (tick w self σ) = None) as Hf1.
  { destruct (sys_fault (tick w self σ)) as [e|] eqn:He; [|done].
    rewrite faulted_ticks in Hf by (rewrite He; eauto). congruence. }
  destruct (IH _ Hf) as (IHq & IHp & IHc). rewrite IHq, IHp, IHc. clear IH IHq IHp IHc.
  destruct (tick_cases w self σ)
    as [([e He] & Ht)|[(Hf0 & Hq & Ht)|(Hf0 & p & q & Hq & Ht)]].
  - rewrite Ht in Hf1. congruence.
  - rewrite Ht. simpl. rewrite !Hq, processing_app. simpl.
    rewrite ?drop_nil, ?take_nil, ?app_nil_r. split_and!; [done..|lia].
  - rewrite Ht in Hf1 |- *. simpl in *. rewrite !Hq.
    destruct (outcome_of (w (sys_clock σ)) self p); [|done].
    rewrite !processing_app. simpl. rewrite processing_app, effects_of_processing.
    simpl. rewrite <- !app_assoc. simpl. split_and!; [done..|lia].
Qed.

Lemma one_event_per_pass_witness :
  let σ := run (fun _ => Scenario.slack) Scenario.bot initial_system
             [Deliver (Scenario.req "e1"); Deliver Scenario.req2;
              Deliver Scenario.stranger_req] in
  let σ' := run (fun _ => Scenario.slack) Scenario.bot σ (ticks 2) in
  event_queue (sys_state σ') = drop 2 (event_queue (sys_state σ))
  ∧ processing (trace (sys_state σ'))
    = processing (trace (sys_state σ)) ++ take 2 (event_queue (sys_state σ))
  ∧ sys_clock σ' = sys_clock σ + 2.
Proof.
  intros σ.
  apply (one_event_per_pass (fun _ => Scenario.slack) Scenario.bot 2 σ).
  vm_compute. reflexivity.
Defined.

(** X12: when [send_message] raises an exception of class [Exception]
    (any subclass) for a relevant, enriched event, the exception is
    logged and the event dropped after that single call: nothing is
    notified, nothing is put back into the queue, the loop goes on, and
    the next pass processes the next event exactly as if it were
    processed alone. *)
Theorem send_failure_isolated w self σ e1 e2 q text user_name channel_name e :
  let message :=
    notification_text (channel_name_with_emoji self channel_name) user_name text in
  sys_fault σ = None →
  event_queue (sys_state σ) = e1 :: e2 :: q →
  relevant self (event_of e1) text →
  enriched (w (sys_clock σ)) (event_of e1) user_name channel_name →
  send_message (w (sys_clock σ)) (telegram_chat_id self) message = Raise e →
  is_Exception e = true →
  let σ1 := tick w self σ in
  let σ2 := tick w self σ1 in
  trace (sys_state σ1)
  = trace (sys_state σ)
    ++ [QueuePopleft e1; Log (LogProcessing e1);
        CallUsersInfo (event_of e1 !! "user");
        CallConversationsInfo (event_of e1 !! "channel");
        Log (LogMentionFound text);
        CallSendMessage (telegram_chat_id self) message;
        Log (LogSendFailed e); Sleep]
  ∧ notifications (trace (sys_state σ1)) = notifications (trace (sys_state σ))
  ∧ sys_fault σ1 = None
  ∧ event_queue (sys_state σ1) = e2 :: q
  ∧ event_queue (sys_state σ2) = q
  ∧ trace (sys_state σ2)
    = trace (sys_state σ1) ++ QueuePopleft e2
        :: trace (snd (process_message (w (S (sys_clock σ))) self e2 initial_state))
        ++ match fst (process_message (w (S (sys_clock σ))) self e2 initial_state) with
           | Ok _ => [Sleep]
           | Raise _ => []
           end.
Proof.
  intros message Hf Hq Hrel Hen Hsend Hexc σ1 σ2.
  destruct (process_message_send_failed (w (sys_clock σ)) self e1 text user_name
              channel_name e Hrel Hen Hsend Hexc) as [Hok Heff].
  fold message in Heff.
  assert (σ1 = {| sys_state :=
                    {| event_queue := e2 :: q;
                       processed_events := processed_events (sys_state σ);
                       trace := trace (sys_state σ) ++ QueuePopleft e1
                                  :: effects_of (w (sys_clock σ)) self e1 ++ [Sleep] |};
                  sys_clock := S (sys_clock σ); sys_fault := None |}) as H1.
  { subst σ1. rewrite (tick_busy w self σ e1 (e2 :: q)) by done. by rewrite Hok. }
  assert (sys_fault σ1 = None) as Hf1 by by rewrite H1.
  assert (event_queue (sys_state σ1) = e2 :: q) as Hq1 by by rewrite H1.
  assert (sys_clock σ1 = S (sys_clock σ)) as Hc1 by by rewrite H1.
  split_and!; [| |done|done| |].
  - rewrite H1, Heff. done.
  - rewrite H1. simpl. rewrite notifications_app, Heff. simpl. by rewrite app_nil_r.
  - subst σ2. by rewrite (tick_busy w self σ1 e2 q), ?Hc1.
  - subst σ2. by rewrite (tick_busy w self σ1 e2 q), ?Hc1.
Qed.

Lemma send_failure_isolated_witness :
  let σ := run (fun _ => Scenario.sink_down) Scenario.bot initial_system
             [Deliver (Scenario.req "e1"); Deliver Scenario.req2] in
  let σ1 := tick (fun _ => Scenario.sink_down) Scenario.bot σ in
  let σ2 := tick (fun _ => Scenario.sink_down) Scenario.bot σ1 in
  notifications (trace (sys_state σ1)) = notifications (trace (sys_state σ))
  ∧ sys_fault σ1 = None
  ∧ event_queue (sys_state σ1) = [Scenario.m2]
  ∧ event_queue (sys_state σ2) = [].
Proof.
  intros σ σ1 σ2.
  destruct (send_failure_isolated (fun _ => Scenario.sink_down) Scenario.bot σ
              Scenario.m1 Scenario.m2 [] "<@U1> ping" "Ann" "general"
              (OtherException "NetworkError"))
    as (_ & H1 & H2 & H3 & H4 & _).
  - vm_compute. reflexivity.
  - vm_compute. reflexivity.
  - repeat split; vm_compute; reflexivity.
  - exists {[ "user" := {[ "real_name" := "Ann" ]} ]},
      {[ "channel" := {[ "name" := "general" ]} ]},
      {[ "real_name" := "Ann" ]}, {[ "name" := "general" ]}.
    repeat split; vm_compute; reflexivity.
  - vm_compute. reflexivity.
  - reflexivity.
  - split_and!; [exact H1|exact H2|exact H3|exact H4].
Defined.

(** ** The mention test *)

Lemma prefix_spec a s : String.prefix a s = true ↔ ∃ post, s = a +:+ post.
Proof.
  revert s. induction a as [|c a IH]; intros [|d s]; simpl.
  - split; [intros _; by exists ""|done].
  - split; [intros _; by exists (String d s)|done].
  - split; [done|intros [post Hpost]; done].
  - destruct (ascii_dec c d) as [->|Hne].
    + rewrite IH. split.
      * intros [post ->]. by exists post.
      * intros [post [= ->]]. by exists post.
    + split; [done|]. intros [post [= ? _]]. done.
Qed.

(** X13: the test [f"<@{self.user_id}>" in text] of line 88 holds exactly
    when the marker occurs in the text as a contiguous run of characters,
    anywhere: the text is some prefix, the marker, some suffix. *)
Theorem mention_test_is_occurrence self text :
  py_in (mention_marker self) text = true
  ↔ ∃ pre post, text = pre +:+ mention_marker self +:+ post.
Proof.
  generalize (mention_marker self) as sub. intros sub.
  induction text as [|c text IH]; cbn [py_in].
  - rewrite orb_false_r, prefix_spec. split.
    + intros [post Hpost]. by exists "", post.
    + intros ([|d pre] & post & Hpost); [by exists post|done].
  - rewrite orb_true_iff, prefix_spec, IH. split.
    + intros [[post Hpost]|(pre & post & ->)].
      * by exists "", post.
      * by exists (String c pre), post.
    + intros ([|d pre] & post & Hpost).
      * left. by exists post.
      * right. injection Hpost as -> ->. by exists pre, post.
Qed.

(** ** Startup *)

(** X14: when opening or parsing the emoji file raises an exception of
    class [Exception] and the user identifier was resolved, [__init__]
    completes: the bot has the resolved identifier and an empty table,
    and every channel is then displayed as its name followed by one
    space. *)
Theorem emoji_file_failure_gives_bare_names auth_test chat_id e u :
  is_Exception e = true →
  get_user_id auth_test = Ok u →
  init auth_test chat_id (Raise e)
  = Ok {| user_id := u; telegram_chat_id := chat_id; channel_emojis := ∅ |}
  ∧ ∀ channel_name,
      channel_name_with_emoji
        {| user_id := u; telegram_chat_id := chat_id; channel_emojis := ∅ |}
        channel_name
      = channel_name +:+ " ".
Proof.
  intros Hexc Hu. unfold init, load_channel_emojis. rewrite Hu, Hexc.
  split; [done|]. intros channel_name.
  unfold channel_name_with_emoji. simpl. by rewrite lookup_empty.
Qed.

Lemma emoji_file_failure_gives_bare_names_witness :
  init (Ok {[ "user_id" := "U1" ]}) (Some "42")
    (Raise (OtherException "FileNotFoundError"))
  = Ok {| user_id := Some "U1"; telegram_chat_id := Some "42"; channel_emojis := ∅ |}
  ∧ ∀ channel_name,
      channel_name_with_emoji
        {| user_id := Some "U1"; telegram_chat_id := Some "42"; channel_emojis := ∅ |}
        channel_name
      = channel_name +:+ " ".
Proof.
  apply (emoji_file_failure_gives_bare_names (Ok {[ "user_id" := "U1" ]}) (Some "42")
           (OtherException "FileNotFoundError") (Some "U1")).
  - reflexivity.
  - vm_compute. reflexivity.
Defined.

(** X15: an exception raised by [auth_test] aborts startup unless it is a
    [SlackApiError]: after a [SlackApiError], [__init__] goes on to read
    the emoji file and builds a bot whose [user_id] is [None] with the
    table [load_channel_emojis] returns (the empty one when the file is
    missing or corrupt); any other exception leaves [__init__] before the
    file is read, whatever the file. *)
Theorem startup_survives_only_slack_errors e chat_id file :
  (is_SlackApiError e = true →
   init (Raise e) chat_id file
   = (table ← load_channel_emojis file;
      Ok {| user_id := None; telegram_chat_id := chat_id; channel_emojis := table |})
   ∧ (∀ table, file = Ok table →
        init (Raise e) chat_id file
        = Ok {| user_id := None; telegram_chat_id := chat_id;
                channel_emojis := table |})
   ∧ (∀ e', file = Raise e' → is_Exception e' = true →
        init (Raise e) chat_id file
        = Ok {| user_id := None; telegram_chat_id := chat_id; channel_emojis := ∅ |}))
  ∧ (is_SlackApiError e = false → init (Raise e) chat_id file = Raise e).
Proof.
  unfold init, get_user_id, load_channel_emojis. split; intros ->; [|done].
  split_and!; [done| |].
  - by intros table ->.
  - by intros e' -> ->.
Qed.

Lemma startup_survives_only_slack_errors_witness :
  init (Raise (OtherException "URLError")) (Some "42") (Raise (OtherException "OSError"))
  = Raise (OtherException "URLError").
Proof.
  apply (startup_survives_only_slack_errors (OtherException "URLError") (Some "42")
           (Raise (OtherException "OSError"))).
  reflexivity.
Defined.
